(** * Inspectura: grading and detection-filtering core of [testIRCTKv2.py]

    A shallow embedding of the grading rules engine
    ([SSEN1611_1_PineGrader_Final]), the detection filter of
    [App.analyze_frame], the deduplicator, the wood-width state of
    [ColorWoodDetector] and the geometric predicates, with the properties
    the specification states about them.

    Numbers.  Python [int]s are [Z].  Python [float]s are modelled as exact
    rationals ([Q]): comparisons, [max]/[min], [abs] and the four operations
    are the exact ones, so rounding error, infinities and NaN of IEEE
    arithmetic are outside the model.  [float('inf')] in the frequency table
    is an explicit constructor.  Every concrete input used below is exactly
    representable in binary floating point or gives the same result there.

    Exceptions.  A Python function that can raise returns [result A]. *)

From stdpp Require Import gmap strings list.
From Stdlib Require Import QArith Qround Qabs Qminmax Lqa Lia ZArith Bool Sorted.

Local Open Scope string_scope.
Local Open Scope list_scope.
Local Open Scope Q_scope.

(** ** Python values and helpers *)

Module Py.

Inductive exn : Type :=
| KeyError
| ValueError
| IndexError
| ZeroDivisionError.

Inductive result (A : Type) : Type :=
| Ok (a : A)
| Raise (e : exn).
Arguments Ok {A} a.
Arguments Raise {A} e.

#[global] Instance result_ret : MRet result := fun A a => Ok a.
#[global] Instance result_bind : MBind result := fun A B k r =>
  match r with
  | Ok a => k a
  | Raise e => Raise e
  end.

Definition Qltb (x y : Q) : bool := negb (Qle_bool y x).
Definition Qleb (x y : Q) : bool := Qle_bool x y.
Definition Qgtb (x y : Q) : bool := Qltb y x.
Definition Qgeb (x y : Q) : bool := Qleb y x.
Definition Qeqb (x y : Q) : bool := Qeq_bool x y.

(** [max(a, b)] returns [b] only when [b > a]; [min(a, b)] returns [b] only
    when [b < a]. *)
Definition max (a b : Q) : Q := if Qgtb b a then b else a.
Definition min (a b : Q) : Q := if Qltb b a then b else a.
Definition abs (a : Q) : Q := Qabs a.

(** [round(x)] with one argument: nearest integer, ties to the even one. *)
Definition round (x : Q) : Z :=
  let f := Qfloor x in
  match Qcompare (x - inject_Z f) (1 # 2) with
  | Lt => f
  | Gt => (f + 1)%Z
  | Eq => if Z.even f then f else (f + 1)%Z
  end.

(** [int(x)]: truncation toward zero. *)
Definition int (x : Q) : Z :=
  if Qltb x 0 then Qceiling x else Qfloor x.

(** [l.index(x)] on a list of strings. *)
Fixpoint index (x : string) (l : list string) : option nat :=
  match l with
  | [] => None
  | y :: l' => if String.eqb x y then Some O else option_map S (index x l')
  end.

(** [x in l] on a list of strings. *)
Definition mem (x : string) (l : list string) : bool :=
  existsb (String.eqb x) l.

(** A [dict] with string keys whose iteration order matters: the items in
    insertion order. *)
Definition dict (V : Type) : Type := list (string * V).

Fixpoint dict_get {V : Type} (d : dict V) (k : string) : option V :=
  match d with
  | [] => None
  | (k', v) :: d' => if String.eqb k k' then Some v else dict_get d' k
  end.

(** [d[k] = v]: overwrite in place, or append a new item. *)
Fixpoint dict_set {V : Type} (d : dict V) (k : string) (v : V) : dict V :=
  match d with
  | [] => [(k, v)]
  | (k', v') :: d' =>
      if String.eqb k k' then (k', v) :: d' else (k', v') :: dict_set d' k v
  end.


(** *** Strings

    Characters are code points 0 to 255. *)

(** [c.lower()] for one character: A-Z and the Latin-1 capitals (except the
    multiplication sign) move 32 places up. *)
Definition lower_char (c : Ascii.ascii) : Ascii.ascii :=
  let n := Ascii.nat_of_ascii c in
  if ((65 <=? n) && (n <=? 90))%nat
     || ((192 <=? n) && (n <=? 222) && negb (n =? 215))%nat
  then Ascii.ascii_of_nat (n + 32) else c.

Fixpoint lower (s : string) : string :=
  match s with
  | EmptyString => EmptyString
  | String c s' => String (lower_char c) (lower s')
  end.

(** [c.isspace()]. *)
Definition isspace (c : Ascii.ascii) : bool :=
  let n := Ascii.nat_of_ascii c in
  (((9 <=? n) && (n <=? 13)) || ((28 <=? n) && (n <=? 32))
   || (n =? 133) || (n =? 160))%nat.

Fixpoint lstrip (s : string) : string :=
  match s with
  | EmptyString => EmptyString
  | String c s' => if isspace c then lstrip s' else s
  end.

Fixpoint rstrip (s : string) : string :=
  match s with
  | EmptyString => EmptyString
  | String c s' =>
      match rstrip s' with
      | EmptyString => if isspace c then EmptyString else String c EmptyString
      | r => String c r
      end
  end.

(** [s.strip()]. *)
Definition strip (s : string) : string := rstrip (lstrip s).

(** [s.replace(a, b)] for single characters [a] and [b]. *)
Fixpoint replace_char (a b : Ascii.ascii) (s : string) : string :=
  match s with
  | EmptyString => EmptyString
  | String c s' =>
      String (if Ascii.eqb c a then b else c) (replace_char a b s')
  end.

(** The characters ['_'] and [' ']. *)
Definition underscore : Ascii.ascii := Ascii.ascii_of_nat 95.
Definition space : Ascii.ascii := Ascii.ascii_of_nat 32.

(** [needle in hay] for strings. *)
Fixpoint contains (needle hay : string) : bool :=
  String.prefix needle hay
  || match hay with
     | EmptyString => false
     | String _ hay' => contains needle hay'
     end.

(** A dict literal: later items overwrite earlier ones with the same key. *)
Definition dict_of {V : Type} (items : list (string * V)) : dict V :=
  foldl (fun d kv => dict_set d kv.1 kv.2) [] items.


(** Float division [a / b]. *)
Definition py_div (a b : Q) : result Q :=
  if Qeqb b 0 then Raise ZeroDivisionError else Ok (a / b).

(** A dict key that is an [int] or a [str]; the two never compare equal. *)
Inductive key : Type :=
| KInt (z : Z)
| KStr (s : string).

Definition key_eqb (a b : key) : bool :=
  match a, b with
  | KInt x, KInt y => (x =? y)%Z
  | KStr x, KStr y => String.eqb x y
  | _, _ => false
  end.

(** [d.get(k)] on a dict with keys of either kind. *)
Fixpoint key_get {V : Type} (d : list (key * V)) (k : key) : option V :=
  match d with
  | [] => None
  | (k', v) :: d' => if key_eqb k k' then Some v else key_get d' k
  end.

End Py.

Import Py.

(** ** The grading rules engine: class [SSEN1611_1_PineGrader_Final] *)

Module Grader.

(** G2-0 is the best grade, G2-4 the worst. *)
Definition GRADES : list string := ["G2-0"; "G2-1"; "G2-2"; "G2-3"; "G2-4"].

Definition KNOT_TYPES : list string :=
  ["Sound Knots"; "Dead Knots"; "Unsound/Missing Knots"].

(** Per grade, one [(percent_limit, absolute_limit)] pair per knot type, in
    the order of [KNOT_TYPES]. *)
Definition KNOT_SIZE_LIMITS : dict (list (Q * Z)) :=
  [ ("G2-0", [(1 # 10, 10%Z); (1 # 10, 0%Z); (0, 0%Z)]);
    ("G2-1", [(1 # 10, 20%Z); (1 # 10, 10%Z); (0, 0%Z)]);
    ("G2-2", [(1 # 10, 35%Z); (1 # 10, 20%Z); (1 # 10, 15%Z)]);
    ("G2-3", [(1 # 10, 50%Z); (1 # 10, 50%Z); (1 # 10, 40%Z)]);
    ("G2-4", [(1, 0%Z); (1, 0%Z); (1, 0%Z)]) ].

(** A frequency limit: a number, or [float('inf')]. *)
Inductive limit : Type :=
| Fin (n : Z)
| Inf.

(** [(max total knots per metre, max poor-quality knots per metre)]. *)
Definition KNOT_NUMBER_LIMITS : dict (limit * limit) :=
  [ ("G2-0", (Fin 2, Fin 0));
    ("G2-1", (Fin 4, Fin 0));
    ("G2-2", (Fin 6, Fin 2));
    ("G2-3", (Inf, Fin 5));
    ("G2-4", (Inf, Inf)) ].

(** [n > lim] for a count [n]. *)
Definition exceeds (n : Z) (lim : limit) : bool :=
  match lim with
  | Fin m => (m <? n)%Z
  | Inf => false
  end.

Section Instance.

(** [self.original_width], set by [__init__]. *)
Variable original_width : Q.

(** [self.size_increase_mm], set by [__init__]: note B, pieces at least
    180 mm wide. *)
Definition size_increase_mm : Z :=
  if Qgeb original_width 180 then 10%Z else 0%Z.

Definition get_max_allowed_size (grade knot_type : string) : result Z :=
  match dict_get KNOT_SIZE_LIMITS grade with
  | None => Raise KeyError
  | Some grade_limits =>
      match index knot_type KNOT_TYPES with
      | None => Ok 0%Z
      | Some knot_index =>
          match grade_limits !! knot_index with
          | None => Raise IndexError
          | Some (percent_limit, absolute_limit) =>
              let max_size :=
                percent_limit * original_width + inject_Z absolute_limit
                + inject_Z size_increase_mm in
              if Qeqb percent_limit 0 && (absolute_limit =? 0)%Z
              then Ok 0%Z
              else Ok (round max_size)
          end
      end
  end.

(** The inner loop of [_check_size_compliance] for one grade: the final
    value of [grade_passed]. *)
Fixpoint size_loop (grade : string) (items : list (string * Q)) : result bool :=
  match items with
  | [] => Ok true
  | (knot_type, max_size_found) :: rest =>
      if negb (mem knot_type KNOT_TYPES) then size_loop grade rest
      else
        allowed_size ← get_max_allowed_size grade knot_type;
        if (allowed_size =? 0)%Z && Qgtb max_size_found 0 then Ok false
        else if Qgtb max_size_found (inject_Z allowed_size) then Ok false
        else size_loop grade rest
  end.

Fixpoint size_grades (grades : list string) (knot_data_size : dict Q)
  : result (list string) :=
  match grades with
  | [] => Ok []
  | grade :: grades' =>
      grade_passed ← size_loop grade knot_data_size;
      passed_grades ← size_grades grades' knot_data_size;
      Ok (if grade_passed : bool then grade :: passed_grades else passed_grades)
  end.

Definition _check_size_compliance (knot_data_size : dict Q)
  : result (list string) :=
  size_grades GRADES knot_data_size.

(** Note C, pieces more than 225 mm wide. *)
Definition number_increase_factor : Q :=
  if Qgtb original_width 225 then 3 # 2 else 1.

(** One iteration of the loop of [_check_number_compliance]. *)
Definition number_grade_passed (total_knots_found poor_quality_knots_found : Z)
  (grade : string) : result bool :=
  match dict_get KNOT_NUMBER_LIMITS grade with
  | None => Raise KeyError
  | Some (total_limit, poor_limit) =>
      let adjusted_total_limit :=
        match total_limit with
        | Inf => Inf
        | Fin n => Fin (int (inject_Z n * number_increase_factor))
        end in
      let grade_passed := negb (exceeds total_knots_found adjusted_total_limit) in
      let grade_passed :=
        if grade_passed
        then negb (exceeds poor_quality_knots_found poor_limit)
        else grade_passed in
      Ok grade_passed
  end.

Fixpoint number_grades (total poor : Z) (grades : list string)
  : result (list string) :=
  match grades with
  | [] => Ok []
  | grade :: grades' =>
      grade_passed ← number_grade_passed total poor grade;
      passed_grades ← number_grades total poor grades';
      Ok (if grade_passed : bool then grade :: passed_grades else passed_grades)
  end.

Definition _check_number_compliance (knot_data_number : gmap string Z)
  : result (list string) :=
  let total_knots_found := default 0%Z (knot_data_number !! "total") in
  let poor_quality_knots_found :=
    default 0%Z (knot_data_number !! "unsound_only") in
  number_grades total_knots_found poor_quality_knots_found GRADES.

Definition _determine_single_face_grade (knot_data_size : dict Q)
  (knot_data_number : gmap string Z) : result string :=
  size_passed ← _check_size_compliance knot_data_size;
  number_passed ← _check_number_compliance knot_data_number;
  let final_grades_passed :=
    List.filter (fun g => mem g size_passed && mem g number_passed) GRADES in
  match final_grades_passed with
  | [] => Ok "Fails G2-4"
  | g :: _ => Ok g
  end.

End Instance.

(** A measurement: [(defect_type, size_mm, percentage)]. *)
Definition measurement : Type := string * Q * Q.

(** The category a raw defect type is counted in. *)
Definition knot_type_of (defect_type : string) : string :=
  if mem defect_type ["Sound_Knot"; "Sound Knot"; "live_knot"; "live knot"]
  then "Sound Knots"
  else if mem defect_type ["Dead_Knot"; "Dead Knot"; "dead_knot"; "dead knot"]
  then "Dead Knots"
  else if mem defect_type
            ["Unsound_Knot"; "Unsound Knot"; "unsound_knot"; "unsound knot";
             "Crack_Knot"; "Knot with Crack"; "crack_knot"; "knot with crack";
             "Missing_Knot"; "Missing Knot"; "missing_knot"; "missing knot"]
  then "Unsound/Missing Knots"
  else "Unsound/Missing Knots".

(** The body of the loop over the measurements. *)
Definition convert_step (acc : dict Q * gmap string Z) (m : measurement)
  : dict Q * gmap string Z :=
  let '(knot_data_size, knot_data_number) := acc in
  let '(defect_type, size_mm, _) := m in
  let knot_type := knot_type_of defect_type in
  let knot_data_size :=
    match dict_get knot_data_size knot_type with
    | Some old => dict_set knot_data_size knot_type (max old size_mm)
    | None => knot_data_size
    end in
  let knot_data_number :=
    <["total" := (default 0 (knot_data_number !! "total") + 1)%Z]>
      knot_data_number in
  let knot_data_number :=
    if String.eqb knot_type "Unsound/Missing Knots"
    then <["unsound_only" :=
             (default 0 (knot_data_number !! "unsound_only") + 1)%Z]>
           knot_data_number
    else knot_data_number in
  (knot_data_size, knot_data_number).

Definition convert_measurements_to_knot_data (measurements : list measurement)
  : dict Q * gmap string Z :=
  let knot_data_size :=
    foldl (fun d knot_type => dict_set d knot_type 0) [] KNOT_TYPES in
  let knot_data_number : gmap string Z :=
    <["unsound_only" := 0%Z]> (<["total" := 0%Z]> ∅) in
  foldl convert_step (knot_data_size, knot_data_number) measurements.

Definition determine_surface_grade (original_width : Q)
  (measurements : list measurement) : result string :=
  match measurements with
  | [] => Ok "G2-0"
  | _ =>
      let '(knot_data_size, knot_data_number) :=
        convert_measurements_to_knot_data measurements in
      grade ← _determine_single_face_grade original_width
                 knot_data_size knot_data_number;
      if String.eqb grade "Fails G2-4" then Ok "G2-4" else Ok grade
  end.


(** A face data dict: the values under ['size'] and ['number']. *)
Definition face_data : Type := (dict Q * gmap string Z)%type.

Definition determine_final_grade_dual_face (original_width : Q)
  (top_face_data bottom_face_data : face_data) : result string :=
  top_grade ← _determine_single_face_grade original_width
                 top_face_data.1 top_face_data.2;
  bottom_grade ← _determine_single_face_grade original_width
                    bottom_face_data.1 bottom_face_data.2;
  if String.eqb top_grade "Fails G2-4" || String.eqb bottom_grade "Fails G2-4"
  then Ok "Fails G2-4 (One face failed integrity check)"
  else
    match index top_grade GRADES, index bottom_grade GRADES with
    | Some top_index, Some bottom_index =>
        let worst_index := Nat.max top_index bottom_index in
        match GRADES !! worst_index with
        | Some grade => Ok grade
        | None => Raise IndexError
        end
    | _, _ => Raise ValueError
    end.

Definition determine_final_grade (original_width : Q)
  (top_measurements bottom_measurements : list measurement) : result string :=
  let top := convert_measurements_to_knot_data top_measurements in
  let bottom := convert_measurements_to_knot_data bottom_measurements in
  final_grade ← determine_final_grade_dual_face original_width top bottom;
  if contains "Fails G2-4" final_grade then Ok "G2-4" else Ok final_grade.

(** *** Notions used to state the properties of the class *)

(** The configured [(percent, constant)] pair of a grade and a category. *)
Definition size_limit (grade knot_type : string) : option (Q * Z) :=
  grade_limits ← dict_get KNOT_SIZE_LIMITS grade;
  knot_index ← index knot_type KNOT_TYPES;
  grade_limits !! knot_index.

Definition percentOfWidth (grade knot_type : string) : Q :=
  from_option fst 0 (size_limit grade knot_type).

Definition constantMm (grade knot_type : string) : Z :=
  from_option snd 0%Z (size_limit grade knot_type).

(** The size formula of the standard, before any rounding. *)
Definition size_formula (W : Q) (grade knot_type : string) : Q :=
  percentOfWidth grade knot_type * W
  + inject_Z (constantMm grade knot_type)
  + (if Qgeb W 180 then 10 else 0).

(** The NOT PERMITTED sentinel: 0 % of the width plus 0 mm. *)
Definition not_permitted (grade knot_type : string) : bool :=
  Qeqb (percentOfWidth grade knot_type) 0
  && (constantMm grade knot_type =? 0)%Z.

(** The allowed size as a total function, for grades of the table. *)
Definition allowed (W : Q) (grade knot_type : string) : Z :=
  match get_max_allowed_size W grade knot_type with
  | Ok z => z
  | Raise _ => 0%Z
  end.

Definition size_ok (W : Q) (grade : string) (d : dict Q) : bool :=
  forallb (fun kv : string * Q =>
             negb (mem kv.1 KNOT_TYPES)
             || Qleb kv.2 (inject_Z (allowed W grade kv.1))) d.

Definition number_ok (W : Q) (total poor : Z) (grade : string) : bool :=
  match number_grade_passed W total poor grade with
  | Ok b => b
  | Raise _ => false
  end.

(** The grade returned when [passes] tells which grades pass both checks. *)
Definition surface_of (passes : string -> bool) : string :=
  let grade := hd "Fails G2-4" (List.filter passes GRADES) in
  if String.eqb grade "Fails G2-4" then "G2-4" else grade.

(** Two size dicts with the same keys in the same order, the values of the
    first pointwise no larger. *)
Definition dict_le (d d' : dict Q) : Prop :=
  Forall2 (fun a b : string * Q => a.1 = b.1 /\ a.2 <= b.2) d d'.

(** Two measurements of the same defect type, the first no larger. *)
Definition meas_le (m m' : measurement) : Prop :=
  m.1.1 = m'.1.1 /\ m.1.2 <= m'.1.2.

End Grader.

(** ** Detection filtering and geometry: class [App] *)

Module App.

(** One entry of [inference_result.results]; the confidence may be absent. *)
Record raw_detection : Type := {
  label : string;
  raw_bbox : Q * Q * Q * Q;
  raw_confidence : option Q
}.

(** A bounding box [x1, y1, x2, y2] in frame coordinates. *)
Definition box : Type := (Q * Q * Q * Q)%type.

(** An entry of [current_detections]:
    [(bbox, defect_type, size_mm, confidence)]. *)
Record detection : Type := {
  bbox : box;
  defect_type : string;
  size_mm : Q;
  confidence : Q
}.

(** [self.DETECTION_THRESHOLDS["MIN_CONFIDENCE"]]. *)
Definition MIN_CONFIDENCE : Q := 25 # 100.

(** [bbox] is any sequence; [roi] is [(x, y, w, h)] or [None]. *)
Definition bbox_inside_roi (bbox : list Q) (roi : option (Q * Q * Q * Q))
  (overlap_threshold : Q) : bool :=
  match roi with
  | None => true
  | Some (roi_x, roi_y, roi_w, roi_h) =>
      let roi_x2 := roi_x + roi_w in
      let roi_y2 := roi_y + roi_h in
      match bbox with
      | [det_x1; det_y1; det_x2; det_y2] =>
          let intersect_x1 := max det_x1 roi_x in
          let intersect_y1 := max det_y1 roi_y in
          let intersect_x2 := min det_x2 roi_x2 in
          let intersect_y2 := min det_y2 roi_y2 in
          if Qleb intersect_x2 intersect_x1 || Qleb intersect_y2 intersect_y1
          then false
          else
            let intersect_area :=
              (intersect_x2 - intersect_x1) * (intersect_y2 - intersect_y1) in
            let det_area := (det_x2 - det_x1) * (det_y2 - det_y1) in
            if Qleb det_area 0 then false
            else
              let overlap_ratio := intersect_area / det_area in
              Qgeb overlap_ratio overlap_threshold
      | _ => true
      end
  end.

(** The nested [calculate_iou] of [filter_overlapping_detections]. *)
Definition calculate_iou (box1 box2 : box) : Q :=
  let '(x1_1, y1_1, x2_1, y2_1) := box1 in
  let '(x1_2, y1_2, x2_2, y2_2) := box2 in
  let x1_i := max x1_1 x1_2 in
  let y1_i := max y1_1 y1_2 in
  let x2_i := min x2_1 x2_2 in
  let y2_i := min y2_1 y2_2 in
  if Qleb x2_i x1_i || Qleb y2_i y1_i then 0
  else
    let intersection := (x2_i - x1_i) * (y2_i - y1_i) in
    let area1 := (x2_1 - x1_1) * (y2_1 - y1_1) in
    let area2 := (x2_2 - x1_2) * (y2_2 - y1_2) in
    let union := area1 + area2 - intersection in
    if Qgtb union 0 then intersection / union else 0.

(** [sorted(detections, key=lambda x: x[3], reverse=True)]: a stable sort,
    so detections of equal confidence keep their order. *)
Fixpoint insert_by_confidence (d : detection) (l : list detection)
  : list detection :=
  match l with
  | [] => [d]
  | e :: l' =>
      if Qgeb (confidence d) (confidence e) then d :: e :: l'
      else e :: insert_by_confidence d l'
  end.

Definition sorted_by_confidence (detections : list detection)
  : list detection :=
  foldr insert_by_confidence [] detections.

(** The inner loop over [filtered_detections]: the final value of
    [is_overlapping]. *)
Definition is_overlapping (overlap_threshold : Q) (detection : detection)
  (filtered_detections : list App.detection) : bool :=
  existsb (fun selected_detection =>
             Qgtb (calculate_iou (bbox detection) (bbox selected_detection))
               overlap_threshold)
    filtered_detections.

(** The loop over [sorted_detections]; [filtered_detections] is the list
    kept so far, in the order of insertion. *)
Fixpoint overlap_loop (overlap_threshold : Q)
  (sorted_detections filtered_detections : list detection)
  : list detection :=
  match sorted_detections with
  | [] => filtered_detections
  | detection :: rest =>
      if is_overlapping overlap_threshold detection filtered_detections
      then overlap_loop overlap_threshold rest filtered_detections
      else overlap_loop overlap_threshold rest
             (filtered_detections ++ [detection])
  end.

Definition filter_overlapping_detections (detections : list detection)
  (overlap_threshold : Q) : list detection :=
  if (length detections <=? 1)%nat then detections
  else overlap_loop overlap_threshold (sorted_by_confidence detections) [].

(** *** Notions used to state the properties of the overlap filter *)

(** Every detection of [l], taken in order, overlaps none of [kept] and none
    of the detections of [l] before it. *)
Fixpoint greedy (t : Q) (kept l : list detection) : Prop :=
  match l with
  | [] => True
  | d :: l' => is_overlapping t d kept = false /\ greedy t (kept ++ [d]) l'
  end.

(** Descending confidence: [a] may stand before [b]. *)
Definition by_confidence (a b : detection) : Prop :=
  confidence b <= confidence a.

(** *** The detection loop of [analyze_frame] *)

Section AnalyzeFrame.

(** The frame geometry recorded by [resize_to_640], the current dynamic wood
    ROI of the camera, and the two helpers the loop calls on an accepted
    box: the label table and the calibrated size. *)
Variables (scale pad_x pad_y original_w original_h : Q).
Variable dynamic_wood_roi : option (Q * Q * Q * Q).
Variable map_model_output_to_standard : string -> string.
Variable calculate_defect_size : box -> Q.

(** [det.get('confidence', 0.7)]. *)
Definition confidence_of (det : raw_detection) : Q :=
  default (7 # 10) (raw_confidence det).

(** The confidence gate: [false] when the loop takes [continue]. *)
Definition confidence_gate (det : raw_detection) : bool :=
  let confidence := confidence_of det in
  negb (negb (Qeqb confidence 0) && Qltb confidence MIN_CONFIDENCE).

(** The rest of the loop body for a detection that passed the gate. *)
Definition locate_detection (det : raw_detection) : option detection :=
  let '(b0, b1, b2, b3) := raw_bbox det in
  let x1 := (b0 - pad_x) / scale in
  let y1 := (b1 - pad_y) / scale in
  let x2 := (b2 - pad_x) / scale in
  let y2 := (b3 - pad_y) / scale in
  let x1 := max 0 (min x1 original_w) in
  let y1 := max 0 (min y1 original_h) in
  let x2 := max 0 (min x2 original_w) in
  let y2 := max 0 (min y2 original_h) in
  if Qleb x2 x1 || Qleb y2 y1 then None
  else if negb (bbox_inside_roi [x1; y1; x2; y2] dynamic_wood_roi (7 # 10))
  then None
  else
    Some {| bbox := (x1, y1, x2, y2);
            defect_type := map_model_output_to_standard (label det);
            size_mm := calculate_defect_size (x1, y1, x2, y2);
            confidence := confidence_of det |}.

(** One iteration of the loop over [inference_result.results]. *)
Definition analyze_detection (det : raw_detection) : option detection :=
  if confidence_gate det then locate_detection det else None.

(** [current_detections] at the end of the loop. *)
Definition current_detections (results : list raw_detection)
  : list detection :=
  omap analyze_detection results.

(** [filtered_detections] of [analyze_frame]. *)
Definition filtered_detections (results : list raw_detection)
  : list detection :=
  filter_overlapping_detections (current_detections results) (3 # 10).

End AnalyzeFrame.

Definition GRADE_G2_0 : string := "G2-0".
Definition GRADE_G2_1 : string := "G2-1".
Definition GRADE_G2_2 : string := "G2-2".
Definition GRADE_G2_3 : string := "G2-3".
Definition GRADE_G2_4 : string := "G2-4".

(** [top_grade] and [bottom_grade] are grade strings or [None]. *)
Definition determine_final_grade (top_grade bottom_grade : option string)
  : result string :=
  let grade_hierarchy :=
    [GRADE_G2_0; GRADE_G2_1; GRADE_G2_2; GRADE_G2_3; GRADE_G2_4] in
  let top_grade := default GRADE_G2_0 top_grade in
  let bottom_grade := default GRADE_G2_0 bottom_grade in
  let top_index := default 0%nat (index top_grade grade_hierarchy) in
  let bottom_index := default 0%nat (index bottom_grade grade_hierarchy) in
  match grade_hierarchy !! Nat.max top_index bottom_index with
  | Some final_grade => Ok final_grade
  | None => Raise IndexError
  end.

Definition _check_bbox_intersection
  (box1_x1 box1_y1 box1_x2 box1_y2 box2_x1 box2_y1 box2_x2 box2_y2 : Q)
  : bool :=
  let no_intersection :=
    Qltb box1_x2 box2_x1 || Qgtb box1_x1 box2_x2
    || Qltb box1_y2 box2_y1 || Qgtb box1_y1 box2_y2 in
  negb no_intersection.


(** *** Other methods of the class *)

Definition convert_grade_to_arduino_command (standard_grade : string) : Z :=
  let grade_to_command :=
    dict_of [ (GRADE_G2_0, 1%Z); (GRADE_G2_1, 2%Z); (GRADE_G2_2, 2%Z);
              (GRADE_G2_3, 3%Z); (GRADE_G2_4, 3%Z) ] in
  default 3%Z (dict_get grade_to_command standard_grade).

(** The dict literal of [map_model_output_to_standard], duplicates
    included. *)
Definition label_mapping : dict string :=
  dict_of
    [ ("dead knots", "Dead_Knot");
      ("knots with crack", "Crack_Knot");
      ("live knots", "Sound_Knot");
      ("missing knots", "Missing_Knot");
      ("dead_knots", "Dead_Knot");
      ("knots_with_crack", "Crack_Knot");
      ("live_knots", "Sound_Knot");
      ("missing_knots", "Missing_Knot");
      ("sound_knots", "Sound_Knot");
      ("dead_knots", "Dead_Knot");
      ("unsound_knots", "Unsound_Knot");
      ("sound knots", "Sound_Knot");
      ("dead knots", "Dead_Knot");
      ("unsound knots", "Unsound_Knot");
      ("knot with crack", "Crack_Knot");
      ("live_knot", "Sound_Knot");
      ("dead_knot", "Dead_Knot");
      ("missing_knot", "Missing_Knot");
      ("crack_knot", "Crack_Knot");
      ("live knot", "Sound_Knot");
      ("knot", "Unsound_Knot") ].

Definition map_model_output_to_standard (model_label : string) : string :=
  let normalized_label :=
    replace_char underscore space (strip (lower model_label)) in
  default "Unsound_Knot" (dict_get label_mapping normalized_label).

(** The module globals are the first three arguments.  Returns
    [(size_mm, percentage)]; nothing in the body can raise on a box of four
    numbers, so the [except] branch is not reached. *)
Definition calculate_defect_size
  (TOP_CAMERA_PIXEL_TO_MM BOTTOM_CAMERA_PIXEL_TO_MM WOOD_PALLET_WIDTH_MM : Q)
  (detection_bbox : box) (camera_name : string) : Q * Q :=
  let '(x1, y1, x2, y2) := detection_bbox in
  let width_px := abs (x2 - x1) in
  let height_px := abs (y2 - y1) in
  let defect_size_px := height_px in
  let pixel_to_mm :=
    if String.eqb camera_name "top" then TOP_CAMERA_PIXEL_TO_MM
    else BOTTOM_CAMERA_PIXEL_TO_MM in
  let pixel_to_mm :=
    if Qleb pixel_to_mm 0
    then (if String.eqb camera_name "top" then 296 # 100 else 35 # 10)
    else pixel_to_mm in
  let size_mm := defect_size_px / pixel_to_mm in
  let percentage :=
    if Qgtb WOOD_PALLET_WIDTH_MM 0
    then size_mm / WOOD_PALLET_WIDTH_MM * 100
    else 0 in
  (size_mm, percentage).

(** The geometry computed by [resize_to_640] for a frame of height [h] and
    width [w]: [(scale, new_w, new_h, pad_x, pad_y)].  The pixel data of the
    canvas is not modelled. *)
Definition resize_to_640 (h w : Z) : result (Q * Z * Z * Z * Z) :=
  let MODEL_INPUT_SIZE := 640%Z in
  scale ← py_div (inject_Z MODEL_INPUT_SIZE) (inject_Z (Z.max h w));
  let new_w := int (inject_Z w * scale) in
  let new_h := int (inject_Z h * scale) in
  let pad_x := ((MODEL_INPUT_SIZE - new_w) / 2)%Z in
  let pad_y := ((MODEL_INPUT_SIZE - new_h) / 2)%Z in
  Ok (scale, new_w, new_h, pad_x, pad_y).

(** The entries ['grade'], ['total_defects'] and ['color'] of the dict
    returned by [calculate_grade]; ['text'] is a display string. *)
Record grade_info : Type := {
  gi_grade : string;
  gi_total_defects : Z;
  gi_color : string
}.

Definition calculate_grade (defect_dict : dict Z) : grade_info :=
  let total_defects := foldl Z.add 0%Z (List.map snd defect_dict) in
  if (total_defects =? 0)%Z then
    {| gi_grade := GRADE_G2_0; gi_total_defects := 0;
       gi_color := "dark green" |}
  else if (total_defects <=? 2)%Z then
    {| gi_grade := GRADE_G2_0; gi_total_defects := total_defects;
       gi_color := "dark green" |}
  else if (total_defects <=? 6)%Z then
    {| gi_grade := GRADE_G2_2; gi_total_defects := total_defects;
       gi_color := "orange" |}
  else
    {| gi_grade := GRADE_G2_4; gi_total_defects := total_defects;
       gi_color := "red" |}.

(** [self.DETECTION_THRESHOLDS["ALIGNMENT_TOLERANCE"]]. *)
Definition ALIGNMENT_TOLERANCE : Q := 50.

(** The loop of [check_plank_alignment] over [detection_centers], which
    stops at the first centre that is off. *)
Fixpoint misalignment_loop (frame_center_x frame_center_y : Z)
  (detection_centers : list (Q * Q)) : bool :=
  match detection_centers with
  | [] => false
  | (center_x, center_y) :: rest =>
      let horizontal_offset := abs (center_x - inject_Z frame_center_x) in
      let vertical_offset := abs (center_y - inject_Z frame_center_y) in
      if Qgtb horizontal_offset ALIGNMENT_TOLERANCE
         || Qgtb vertical_offset ALIGNMENT_TOLERANCE
      then true
      else misalignment_loop frame_center_x frame_center_y rest
  end.

(** The state is [self.detection_monitoring["alignment_failures"]];
    [frame_shape] is [(height, width)].  Returns the new counter. *)
Definition check_plank_alignment (alignment_failures : Z)
  (detections : list detection) (frame_shape : Z * Z) : Z :=
  match detections with
  | [] => alignment_failures
  | _ =>
      let '(frame_height, frame_width) := frame_shape in
      let frame_center_x := (frame_width / 2)%Z in
      let frame_center_y := (frame_height / 2)%Z in
      let detection_centers :=
        List.map (fun d =>
                    let '(x1, y1, x2, y2) := bbox d in
                    ((x1 + x2) / 2, (y1 + y2) / 2))
          detections in
      let misalignment_detected :=
        misalignment_loop frame_center_x frame_center_y detection_centers in
      if misalignment_detected then (alignment_failures + 1)%Z else 0%Z
  end.

(** A detection is centred in a frame when the centre of its box is
    within the tolerance of the centre of the frame on both axes. *)
Definition centred (frame_shape : Z * Z) (d : detection) : Prop :=
  let '(x1, y1, x2, y2) := bbox d in
  Qabs ((x1 + x2) / 2 - inject_Z (frame_shape.2 / 2)) <= 50
  /\ Qabs ((y1 + y2) / 2 - inject_Z (frame_shape.1 / 2)) <= 50.

(** The counter after the detections of a sequence of frames, all of one
    shape, were checked in turn. *)
Definition after_frames (frame_shape : Z * Z) (alignment_failures : Z)
  (frames : list (list detection)) : Z :=
  foldl (fun n detections => check_plank_alignment n detections frame_shape)
    alignment_failures frames.

(** The frames of a sequence that have a detection. *)
Definition with_detections (frames : list (list detection))
  : list (list detection) :=
  List.filter (fun detections =>
                 match detections with [] => false | _ => true end) frames.

(** An entry of a session's detection list: the values under
    ["measurements"] and ["defects"], either of which may be absent. *)
Record session_entry : Type := {
  measurements : option (list Grader.measurement);
  defects : option (dict Z)
}.

Section Session.

(** [self.determine_surface_grade(all_measurements, camera_name=...)]: it
    relies on a method that is not in the source, and is a parameter. *)
Variable determine_surface_grade : list Grader.measurement -> string -> string.

Definition determine_final_grade_from_session (camera_name : string)
  (detections_list : list session_entry) : string :=
  match detections_list with
  | [] => GRADE_G2_0
  | _ =>
      let all_measurements :=
        List.concat
          (List.map (fun d => default [] (measurements d)) detections_list) in
      match all_measurements with
      | _ :: _ => determine_surface_grade all_measurements camera_name
      | [] =>
          let combined_defects :=
            foldl (fun combined detection_data =>
                     foldl (fun combined item =>
                              dict_set combined item.1
                                (default 0 (dict_get combined item.1)
                                 + item.2)%Z)
                       combined (default [] (defects detection_data)))
              [] detections_list in
          let grade_info := calculate_grade combined_defects in
          let grade_map :=
            [ (KInt 0, GRADE_G2_0); (KInt 1, GRADE_G2_0);
              (KInt 2, GRADE_G2_2); (KInt 3, GRADE_G2_4) ] in
          default GRADE_G2_4 (key_get grade_map (KStr (gi_grade grade_info)))
      end
  end.

End Session.

End App.

(** ** Deduplication: class [DetectionDeduplicator] *)

Module Dedup.

(** A detection dict: [timestamp], [defect_type], [size_mm] and an optional
    [bbox], which may be any sequence of numbers. *)
Record detection : Type := {
  timestamp : string;
  defect_type : string;
  size_mm : Q;
  bbox : option (list Q)
}.

Definition _calculate_bbox_iou (bbox1 bbox2 : list Q) : Q :=
  match bbox1, bbox2 with
  | [x1_1; y1_1; x2_1; y2_1], [x1_2; y1_2; x2_2; y2_2] =>
      let x1_i := max x1_1 x1_2 in
      let y1_i := max y1_1 y1_2 in
      let x2_i := min x2_1 x2_2 in
      let y2_i := min y2_1 y2_2 in
      if Qleb x2_i x1_i || Qleb y2_i y1_i then 0
      else
        let intersection := (x2_i - x1_i) * (y2_i - y1_i) in
        let area1 := (x2_1 - x1_1) * (y2_1 - y1_1) in
        let area2 := (x2_2 - x1_2) * (y2_2 - y1_2) in
        let union := area1 + area2 - intersection in
        if Qgtb union 0 then intersection / union else 0
  | _, _ => 0
  end.

(** Truth value of [detection.get('bbox')]: present and not empty. *)
Definition truthy (b : option (list Q)) : bool :=
  match b with
  | Some (_ :: _) => true
  | _ => false
  end.

Section Instance.

Variables (spatial_threshold_mm temporal_threshold_sec : Q).

(** [_timestamp_to_seconds]: the ISO timestamp as seconds since the epoch,
    computed by [datetime]. *)
Variable _timestamp_to_seconds : string -> Q.

(** The loop of [_should_merge_with_cluster] over the cluster members. *)
Fixpoint merge_loop (detection : detection) (cluster : list Dedup.detection)
  : bool :=
  match cluster with
  | [] => false
  | cluster_detection :: rest =>
      if String.eqb (defect_type detection) (defect_type cluster_detection)
         && Qleb (abs (size_mm detection - size_mm cluster_detection))
              spatial_threshold_mm
      then
        let detection_bbox := bbox detection in
        let cluster_bbox := bbox cluster_detection in
        if truthy detection_bbox && truthy cluster_bbox then
          let iou :=
            _calculate_bbox_iou (default [] detection_bbox)
              (default [] cluster_bbox) in
          if Qgtb iou (1 # 2) then true else merge_loop detection rest
        else true
      else merge_loop detection rest
  end.

(** What makes a cluster member absorb the detection: same type, size
    within the threshold and, when both boxes are present, an IoU above one
    half. *)
Definition matches (detection cluster_detection : detection) : Prop :=
  defect_type detection = defect_type cluster_detection
  /\ abs (size_mm detection - size_mm cluster_detection)
     <= spatial_threshold_mm
  /\ (truthy (bbox detection) = true ->
      truthy (bbox cluster_detection) = true ->
      1 # 2 < _calculate_bbox_iou (default [] (bbox detection))
                (default [] (bbox cluster_detection))).

(** [cluster[-1]] raises [IndexError] on an empty cluster. *)
Definition _should_merge_with_cluster (detection : detection)
  (cluster : list Dedup.detection) : result bool :=
  match last cluster with
  | None => Raise IndexError
  | Some last_detection =>
      let time_diff :=
        abs (_timestamp_to_seconds (timestamp detection)
             - _timestamp_to_seconds (timestamp last_detection)) in
      if Qgtb time_diff temporal_threshold_sec then Ok false
      else Ok (merge_loop detection cluster)
  end.

End Instance.


(** *** The sweep of [deduplicate] *)

(** [max(cluster, key=lambda x: x['size_mm'])]: the first largest one. *)
Definition max_by_size (first : detection) (rest : list detection)
  : detection :=
  foldl (fun best d => if Qgtb (size_mm d) (size_mm best) then d else best)
    first rest.

Definition _select_best_detection (cluster : list detection)
  : result detection :=
  match cluster with
  | [] => Raise ValueError
  | [d] => Ok d
  | d :: rest => Ok (max_by_size d rest)
  end.

(** [sorted(detections, key=lambda x: x['timestamp'])]: a stable sort on
    the timestamp strings. *)
Fixpoint insert_by_timestamp (d : detection) (l : list detection)
  : list detection :=
  match l with
  | [] => [d]
  | e :: l' =>
      if String.leb (timestamp d) (timestamp e) then d :: e :: l'
      else e :: insert_by_timestamp d l'
  end.

Definition sorted_by_timestamp (detections : list detection)
  : list detection :=
  foldr insert_by_timestamp [] detections.

Section Sweep.

Variables (spatial_threshold_mm temporal_threshold_sec : Q).
Variable _timestamp_to_seconds : string -> Q.

(** The loop over [sorted_detections[1:]]: the clusters closed from here
    on, the last one included. *)
Fixpoint sweep (current_cluster : list detection) (rest : list detection)
  : result (list (list detection)) :=
  match rest with
  | [] => Ok [current_cluster]
  | detection :: rest' =>
      merge ← _should_merge_with_cluster spatial_threshold_mm
                 temporal_threshold_sec _timestamp_to_seconds
                 detection current_cluster;
      if merge : bool then sweep (current_cluster ++ [detection]) rest'
      else
        clusters ← sweep [detection] rest';
        Ok (current_cluster :: clusters)
  end.

Fixpoint select_all (clusters : list (list detection))
  : result (list detection) :=
  match clusters with
  | [] => Ok []
  | cluster :: clusters' =>
      best_detection ← _select_best_detection cluster;
      deduplicated ← select_all clusters';
      Ok (best_detection :: deduplicated)
  end.

Definition deduplicate (detections : list detection)
  : result (list detection) :=
  match detections with
  | [] => Ok []
  | _ =>
      match sorted_by_timestamp detections with
      | [] => Raise IndexError
      | first :: rest =>
          clusters ← sweep [first] rest;
          select_all clusters
      end
  end.

End Sweep.

End Dedup.

(** ** Wood width: class [ColorWoodDetector] and the module global *)

Module Wood.

(** A wood candidate; [cand_bbox] is [(x, y, w, h)]. *)
Record candidate : Type := {
  cand_bbox : Q * Q * Q * Q
}.

(** The module global [WOOD_PALLET_WIDTH_MM] and the fields of the detector
    that the width functions read or write. *)
Record state : Type := {
  WOOD_PALLET_WIDTH_MM : Q;
  pixel_per_mm_top : Q;
  pixel_per_mm_bottom : Q;
  detected_wood_width_mm : gmap string Q
}.

(** The module at import time and the detector after [__init__]. *)
Definition initial : state := {|
  WOOD_PALLET_WIDTH_MM := 0;
  pixel_per_mm_top := 296 # 100;
  pixel_per_mm_bottom := 35 # 10;
  detected_wood_width_mm := <["bottom" := 0]> (<["top" := 0]> ∅)
|}.

(** Float division. *)
Definition truediv (a b : Q) : result Q :=
  if Qeqb b 0 then Raise ZeroDivisionError else Ok (a / b).

Definition calculate_width_mm (st : state) (bbox_pixels : Q)
  (camera : string) : result Q :=
  if String.eqb camera "top" then truediv bbox_pixels (pixel_per_mm_top st)
  else if String.eqb camera "bottom"
  then truediv bbox_pixels (pixel_per_mm_bottom st)
  else Raise ValueError.

Definition set_width (st : state) (w : Q) : state :=
  {| WOOD_PALLET_WIDTH_MM := w;
     pixel_per_mm_top := pixel_per_mm_top st;
     pixel_per_mm_bottom := pixel_per_mm_bottom st;
     detected_wood_width_mm := detected_wood_width_mm st |}.

Definition set_detected (st : state) (camera_name : string) (w : Q) : state :=
  {| WOOD_PALLET_WIDTH_MM := WOOD_PALLET_WIDTH_MM st;
     pixel_per_mm_top := pixel_per_mm_top st;
     pixel_per_mm_bottom := pixel_per_mm_bottom st;
     detected_wood_width_mm := <[camera_name := w]> (detected_wood_width_mm st) |}.

Definition _validate_wood_width_sync (st : state) (detected_width_mm : Q)
  (camera_name : string) : result state :=
  if negb (String.eqb camera_name "bottom") then Ok st
  else
    let st :=
      if Qgtb (abs (WOOD_PALLET_WIDTH_MM st - detected_width_mm)) (1 # 1000)
      then set_width st detected_width_mm else st in
    match detected_wood_width_mm st !! camera_name with
    | None => Raise KeyError
    | Some stored =>
        if Qgtb (abs (stored - detected_width_mm)) (1 # 1000)
        then Ok (set_detected st camera_name detected_width_mm)
        else Ok st
    end.

(** Returns the new state and the returned width. *)
Definition update_wood_width_dynamic (st : state) (camera_name : string)
  (wood_candidates : list candidate) : result (state * Q) :=
  match wood_candidates with
  | candidate :: _ =>
      let '(x, y, w, h) := cand_bbox candidate in
      detected_width_mm ← calculate_width_mm st h camera_name;
      let st := set_detected st camera_name detected_width_mm in
      if String.eqb camera_name "bottom" then
        let st := set_width st detected_width_mm in
        st ← _validate_wood_width_sync st detected_width_mm camera_name;
        Ok (st, detected_width_mm)
      else Ok (st, detected_width_mm)
  | [] => Ok (st, 0)
  end.

Definition check_roi_collision
  (roi1_x roi1_y roi1_w roi1_h roi2_x roi2_y roi2_w roi2_h : Q) : bool :=
  let roi1_x2 := roi1_x + roi1_w in
  let roi1_y2 := roi1_y + roi1_h in
  let roi2_x2 := roi2_x + roi2_w in
  let roi2_y2 := roi2_y + roi2_h in
  let overlap :=
    Qltb roi1_x roi2_x2 && Qgtb roi1_x2 roi2_x
    && Qltb roi1_y roi2_y2 && Qgtb roi1_y2 roi2_y in
  overlap.

Definition get_current_wood_width_mm (st : state) : Q :=
  WOOD_PALLET_WIDTH_MM st.

Definition get_wood_width_for_grading (st : state) (fallback_mm : Q) : Q :=
  if Qgtb (WOOD_PALLET_WIDTH_MM st) 0 then WOOD_PALLET_WIDTH_MM st
  else fallback_mm.

(** *** Sequences of update calls *)

(** The default of the parameter [fallback_mm]. *)
Definition default_fallback_mm : Q := 100.

(** A call [update_wood_width_dynamic(camera_name, wood_candidates)]. *)
Definition call : Type := (string * list candidate)%type.

(** The state after one call.  A call that raises does so in
    [calculate_width_mm], before any assignment, and leaves the state as it
    was. *)
Definition after_call (st : state) (c : call) : state :=
  match update_wood_width_dynamic st c.1 c.2 with
  | Ok (st', _) => st'
  | Raise _ => st
  end.

Definition after_calls (st : state) (calls : list call) : state :=
  foldl after_call st calls.

(** Whether a call is a detection of the authoritative (bottom) camera:
    a non-empty candidate list. *)
Definition authoritative (c : call) : bool :=
  String.eqb c.1 "bottom" && negb (bool_decide (c.2 = [])).

(** The width the bottom camera derives from the best candidate of a
    call: its height in pixels over the bottom camera's pixels per mm. *)
Definition derived_width (st : state) (c : call) : Q :=
  match c.2 with
  | candidate :: _ => (cand_bbox candidate).2 / pixel_per_mm_bottom st
  | [] => 0
  end.

(** The most recent authoritative detection of a call sequence. *)
Definition last_authoritative (calls : list call) : option call :=
  last (List.filter authoritative calls).


(** *** Wood candidates *)

Definition _calculate_wood_confidence (area aspect_ratio solidity : Q)
  (vertices : Z) : Q :=
  let confidence := 0 in
  let confidence :=
    if Qleb 10000 area && Qleb area 100000 then confidence + (3 # 10)
    else if Qgtb area 5000 then confidence + (2 # 10)
    else confidence in
  let confidence :=
    if Qleb 2 aspect_ratio && Qleb aspect_ratio 6 then confidence + (3 # 10)
    else if Qleb (15 # 10) aspect_ratio && Qleb aspect_ratio 8
    then confidence + (2 # 10)
    else confidence in
  let confidence :=
    if Qgtb solidity (7 # 10) then confidence + (2 # 10)
    else if Qgtb solidity (5 # 10) then confidence + (1 # 10)
    else confidence in
  let confidence :=
    if (vertices =? 4)%Z then confidence + (2 # 10)
    else if ((4 <=? vertices) && (vertices <=? 6))%Z
    then confidence + (1 # 10)
    else confidence in
  min confidence 1.

(** [wood_candidates] holds the ['bbox'] of each candidate, [image_shape]
    is [(height, width)]; all are integers. *)
Definition generate_auto_roi (wood_candidates : list (Z * Z * Z * Z))
  (image_shape : Z * Z) : option (Z * Z * Z * Z) :=
  match wood_candidates with
  | [] => None
  | best_candidate :: _ =>
      let '(x, y, w, h) := best_candidate in
      let padding_x := int (inject_Z w * (1 # 10)) in
      let padding_y := int (inject_Z h * (1 # 10)) in
      let roi_x1 := Z.max 0 (x - padding_x) in
      let roi_y1 := Z.max 0 (y - padding_y) in
      let roi_x2 := Z.min image_shape.2 (x + w + padding_x) in
      let roi_y2 := Z.min image_shape.1 (y + h + padding_y) in
      Some (roi_x1, roi_y1, roi_x2 - roi_x1, roi_y2 - roi_y1)%Z
  end.

End Wood.

(** ** Plane geometry used to state the properties

    Rectangles are closed, axis-aligned, given by two corners.  These are
    the textbook notions, written independently of the code above. *)

Module Geometry.

(** Length of the common part of the intervals [lo1, hi1] and [lo2, hi2]. *)
Definition overlap_length (lo1 hi1 lo2 hi2 : Q) : Q :=
  Qmax 0 (Qmin hi1 hi2 - Qmax lo1 lo2).

Definition box_area (b : App.box) : Q :=
  let '(x1, y1, x2, y2) := b in (x2 - x1) * (y2 - y1).

Definition intersection_area (a b : App.box) : Q :=
  let '(ax1, ay1, ax2, ay2) := a in
  let '(bx1, by1, bx2, by2) := b in
  overlap_length ax1 ax2 bx1 bx2 * overlap_length ay1 ay2 by1 by2.

(** The corners of a rectangle given as [(x, y, w, h)]. *)
Definition corners (r : Q * Q * Q * Q) : App.box :=
  let '(x, y, w, h) := r in (x, y, x + w, y + h).

(** The point [(px, py)] lies in the closed rectangle. *)
Definition inside (px py : Q) (b : App.box) : Prop :=
  let '(x1, y1, x2, y2) := b in x1 <= px <= x2 /\ y1 <= py <= y2.

End Geometry.

(* ================================================================== *)
(** * Facts *)

#[local] Arguments mem : simpl never.
#[local] Arguments Grader.get_max_allowed_size : simpl never.

(** ** Python helpers *)

Lemma bind_Ok {A B : Type} (a : A) (k : A -> result B) : (Ok a ≫= k) = k a.
Proof. reflexivity. Qed.

Lemma Qltb_lt (x y : Q) : Qltb x y = true <-> x < y.
Proof.
  unfold Qltb. rewrite negb_true_iff, <- not_true_iff_false, Qle_bool_iff.
  split; [apply Qnot_le_lt | apply Qlt_not_le].
Qed.

Lemma Qleb_le (x y : Q) : Qleb x y = true <-> x <= y.
Proof. apply Qle_bool_iff. Qed.

Lemma Qgtb_lt (x y : Q) : Qgtb x y = true <-> y < x.
Proof. apply Qltb_lt. Qed.

Lemma Qgeb_le (x y : Q) : Qgeb x y = true <-> y <= x.
Proof. apply Qleb_le. Qed.

Lemma Qeqb_eq (x y : Q) : Qeqb x y = true <-> x == y.
Proof. apply Qeq_bool_iff. Qed.

Lemma Qltb_ge (x y : Q) : Qltb x y = false <-> y <= x.
Proof.
  unfold Qltb. rewrite negb_false_iff. apply Qle_bool_iff.
Qed.

Lemma max_le_l (a b : Q) : a <= max a b.
Proof.
  unfold max. destruct (Qgtb b a) eqn:E; [apply Qgtb_lt in E; lra | lra].
Qed.

Lemma max_le_r (a b : Q) : b <= max a b.
Proof.
  unfold max. destruct (Qgtb b a) eqn:E; [lra | apply Qltb_ge in E; lra].
Qed.

Lemma max_mono (a a' b b' : Q) : a <= a' -> b <= b' -> max a b <= max a' b'.
Proof.
  intros Ha Hb. pose proof (max_le_l a' b'). pose proof (max_le_r a' b').
  unfold max at 1. destruct (Qgtb b a); lra.
Qed.

(** [round] is within one half of its argument. *)
Lemma round_near (x : Q) :
  x - (1 # 2) <= inject_Z (round x) /\ inject_Z (round x) <= x + (1 # 2).
Proof.
  unfold round.
  pose proof (Qfloor_le x) as Hlo. pose proof (Qlt_floor x) as Hhi.
  rewrite inject_Z_plus in Hhi. change (inject_Z 1) with 1 in Hhi.
  destruct (Qcompare_spec (x - inject_Z (Qfloor x)) (1 # 2)) as [E | E | E];
    [destruct (Z.even (Qfloor x)) | | ];
    rewrite ?inject_Z_plus; change (inject_Z 1) with 1; lra.
Qed.

Example ex_round_half_even :
  round (1 # 2) = 0%Z /\ round (3 # 2) = 2%Z /\ round (5 # 2) = 2%Z
  /\ round (43 # 2) = 22%Z /\ int (6 * (3 # 2)) = 9%Z.
Proof. repeat split; reflexivity. Qed.

Example ex_scenario_1 :
  Grader.determine_surface_grade 115 [("Sound_Knot", 21, 0)] = Ok "G2-0".
Proof. vm_compute. reflexivity. Qed.

Example ex_scenario_2 :
  Grader.determine_surface_grade 115 [("Unsound_Knot", 5, 0)] = Ok "G2-2".
Proof. vm_compute. reflexivity. Qed.

(** ** Properties of the grading rules engine *)

Section GraderFacts.

Import Grader.

Variable W : Q.

Lemma In_GRADES (g : string) :
  In g GRADES ->
  g = "G2-0" \/ g = "G2-1" \/ g = "G2-2" \/ g = "G2-3" \/ g = "G2-4".
Proof. unfold GRADES. simpl. intuition. Qed.

Lemma In_KNOT_TYPES (k : string) :
  In k KNOT_TYPES ->
  k = "Sound Knots" \/ k = "Dead Knots" \/ k = "Unsound/Missing Knots".
Proof. unfold KNOT_TYPES. simpl. intuition. Qed.

Lemma mem_In (x : string) (l : list string) : mem x l = true <-> In x l.
Proof.
  unfold mem. rewrite existsb_exists. split.
  - intros (y & Hy & E). apply String.eqb_eq in E. now subst.
  - intros H. exists x. split; [exact H | apply String.eqb_refl].
Qed.

Lemma dict_get_In {V : Type} (d : dict V) (k : string) (v : V) :
  dict_get d k = Some v -> In (k, v) d.
Proof.
  induction d as [| [k' v'] d IH]; simpl; [discriminate |].
  destruct (String.eqb k k') eqn:E.
  - apply String.eqb_eq in E. intros [= ->]. left. now subst.
  - intros H. right. now apply IH.
Qed.

Lemma index_In (x : string) (l : list string) (i : nat) :
  index x l = Some i -> In x l.
Proof.
  revert i. induction l as [| y l IH]; simpl; [discriminate |]. intros i.
  destruct (String.eqb x y) eqn:E.
  - apply String.eqb_eq in E. now left.
  - destruct (index x l); [| discriminate]. intros _. right. now apply (IH _ eq_refl).
Qed.

Lemma index_lt (x : string) (l : list string) (i : nat) :
  index x l = Some i -> (i < length l)%nat.
Proof.
  revert i. induction l as [| y l IH]; simpl; [discriminate |]. intros i.
  destruct (String.eqb x y).
  - intros [= <-]. lia.
  - destruct (index x l) as [j |]; [| discriminate].
    intros [= <-]. specialize (IH j eq_refl). lia.
Qed.

(** Within the table [get_max_allowed_size] never raises. *)
Lemma get_max_allowed_size_ok (grade knot_type : string) :
  In grade GRADES ->
  get_max_allowed_size W grade knot_type = Ok (allowed W grade knot_type).
Proof.
  intros Hg. unfold allowed.
  destruct (get_max_allowed_size W grade knot_type) eqn:E; [reflexivity |].
  exfalso. unfold get_max_allowed_size in E.
  apply In_GRADES in Hg.
  destruct (index knot_type KNOT_TYPES) as [i |] eqn:Ei.
  - apply index_lt in Ei. simpl in Ei.
    destruct i as [| [| [| i]]]; [| | | lia];
      destruct Hg as [-> | [-> | [-> | [-> | ->]]]]; simpl in E;
      try discriminate E; destruct (_ && _) in E; discriminate E.
  - destruct Hg as [-> | [-> | [-> | [-> | ->]]]]; discriminate E.
Qed.

Lemma size_loop_ok (grade : string) (d : dict Q) :
  In grade GRADES -> size_loop W grade d = Ok (size_ok W grade d).
Proof.
  intros Hg. induction d as [| [k v] d IH]; simpl; [reflexivity |].
  destruct (mem k KNOT_TYPES) eqn:Ek; simpl; [| exact IH].
  rewrite (get_max_allowed_size_ok _ _ Hg). simpl.
  destruct (Qleb v (inject_Z (allowed W grade k))) eqn:Ev.
  - apply Qleb_le in Ev.
    assert (Qgtb v (inject_Z (allowed W grade k)) = false) as ->
      by (apply Qltb_ge; exact Ev).
    destruct (allowed W grade k =? 0)%Z eqn:Ez; simpl; [| exact IH].
    apply Z.eqb_eq in Ez. rewrite Ez in Ev.
    assert (Qgtb v 0 = false) as -> by (apply Qltb_ge; exact Ev).
    exact IH.
  - assert (Qgtb v (inject_Z (allowed W grade k)) = true) as Hgt.
    { unfold Qgtb, Qltb. unfold Qleb in Ev. now rewrite Ev. }
    rewrite Hgt. now destruct (_ && _).
Qed.

Lemma size_grades_ok (d : dict Q) (grades : list string) :
  (forall g, In g grades -> In g GRADES) ->
  size_grades W grades d = Ok (List.filter (fun g => size_ok W g d) grades).
Proof.
  induction grades as [| g grades IH]; intros Hin; simpl; [reflexivity |].
  rewrite size_loop_ok by (apply Hin; now left). simpl.
  rewrite IH by (intros g' Hg'; apply Hin; now right). simpl.
  now destruct (size_ok W g d).
Qed.

Lemma number_grade_passed_ok (total poor : Z) (grade : string) :
  In grade GRADES ->
  number_grade_passed W total poor grade = Ok (number_ok W total poor grade).
Proof.
  intros Hg. unfold number_ok.
  destruct (number_grade_passed W total poor grade) eqn:E; [reflexivity |].
  exfalso. apply In_GRADES in Hg.
  destruct Hg as [-> | [-> | [-> | [-> | ->]]]]; discriminate E.
Qed.

Lemma number_grades_ok (total poor : Z) (grades : list string) :
  (forall g, In g grades -> In g GRADES) ->
  number_grades W total poor grades
  = Ok (List.filter (number_ok W total poor) grades).
Proof.
  induction grades as [| g grades IH]; intros Hin; simpl; [reflexivity |].
  rewrite number_grade_passed_ok by (apply Hin; now left). simpl.
  rewrite IH by (intros g' Hg'; apply Hin; now right). simpl.
  now destruct (number_ok W total poor g).
Qed.

Lemma mem_filter (f : string -> bool) (l : list string) (x : string) :
  mem x (List.filter f l) = mem x l && f x.
Proof.
  apply eq_true_iff_eq. rewrite andb_true_iff, !mem_In, filter_In. reflexivity.
Qed.

(** The face grade is the first grade of [GRADES] that passes both checks. *)
Lemma single_face_grade_first (d : dict Q) (n : gmap string Z) :
  let total := default 0%Z (n !! "total") in
  let poor := default 0%Z (n !! "unsound_only") in
  _determine_single_face_grade W d n
  = Ok (hd "Fails G2-4"
          (List.filter (fun g => size_ok W g d && number_ok W total poor g) GRADES)).
Proof.
  intros total poor. unfold _determine_single_face_grade,
    _check_size_compliance, _check_number_compliance.
  rewrite size_grades_ok by auto. rewrite bind_Ok.
  rewrite number_grades_ok by auto. rewrite bind_Ok.
  fold total poor.
  assert (List.filter
            (fun g => mem g (List.filter (fun g0 => size_ok W g0 d) GRADES)
                      && mem g (List.filter (number_ok W total poor) GRADES))
            GRADES
          = List.filter (fun g => size_ok W g d && number_ok W total poor g) GRADES)
    as ->.
  { apply filter_ext_in. intros g Hg. rewrite !mem_filter.
    apply mem_In in Hg. rewrite Hg. reflexivity. }
  now destruct (List.filter _ GRADES).
Qed.

End GraderFacts.

(** ** Size limits *)

Section SizeLimits.

Import Grader.

Ltac each_grade H :=
  apply In_GRADES in H; destruct H as [-> | [-> | [-> | [-> | ->]]]].
Ltac each_knot_type H :=
  apply In_KNOT_TYPES in H; destruct H as [-> | [-> | ->]].





End SizeLimits.

(** ** Frequency limits and the face grade *)

Section FaceGrade.

Import Grader.

Example ex_number_compliance_200 :
  _check_number_compliance 200 (<["unsound_only" := 1%Z]> {["total" := 7%Z]})
  = Ok ["G2-3"; "G2-4"].
Proof. vm_compute. reflexivity. Qed.

Example ex_number_compliance_wide :
  _check_number_compliance 230 (<["unsound_only" := 1%Z]> {["total" := 7%Z]})
  = Ok ["G2-2"; "G2-3"; "G2-4"].
Proof. vm_compute. reflexivity. Qed.

(** C9: at width 200 mm, with 7 knots of which 1 is unsound or missing and
    all sizes within the G2-3 limits, the frequency check fails G2-2,
    passes G2-3, and the face grade is G2-3. *)
Theorem scenario_200mm_seven_knots (knot_data_size : dict Q)
  (knot_data_number : gmap string Z) :
  knot_data_number !! "total" = Some 7%Z ->
  knot_data_number !! "unsound_only" = Some 1%Z ->
  size_loop 200 "G2-3" knot_data_size = Ok true ->
  number_increase_factor 200 = 1
  /\ number_grade_passed 200 7 1 "G2-2" = Ok false
  /\ number_grade_passed 200 7 1 "G2-3" = Ok true
  /\ _check_number_compliance 200 knot_data_number = Ok ["G2-3"; "G2-4"]
  /\ _determine_single_face_grade 200 knot_data_size knot_data_number
     = Ok "G2-3".
Proof.
  intros Ht Hp Hs.
  split; [reflexivity |]. split; [reflexivity |]. split; [reflexivity |].
  split.
  - unfold _check_number_compliance. rewrite Ht, Hp. reflexivity.
  - rewrite single_face_grade_first, Ht, Hp.
    rewrite size_loop_ok in Hs by (simpl; tauto). injection Hs as Hs.
    unfold GRADES. cbn [List.filter default].
    change (number_ok 200 7 1 "G2-0") with false.
    change (number_ok 200 7 1 "G2-1") with false.
    change (number_ok 200 7 1 "G2-2") with false.
    change (number_ok 200 7 1 "G2-3") with true.
    rewrite !andb_false_r, Hs. reflexivity.
Qed.

Example ex_scenario_3 :
  determine_surface_grade 200
    [ ("Sound_Knot", 30, 0); ("Sound_Knot", 25, 0); ("Dead_Knot", 12, 0);
      ("live_knot", 18, 0); ("Dead_Knot", 40, 0); ("Missing_Knot", 20, 0);
      ("Sound_Knot", 61 # 2, 0) ]
  = Ok "G2-3".
Proof. vm_compute. reflexivity. Qed.

Lemma scenario_200mm_seven_knots_witness :
  _determine_single_face_grade 200
    [("Sound Knots", 80); ("Dead Knots", 35); ("Unsound/Missing Knots", 70)]
    (<["unsound_only" := 1%Z]> {["total" := 7%Z]})
  = Ok "G2-3".
Proof.
  apply scenario_200mm_seven_knots; reflexivity.
Defined.

End FaceGrade.

(** ** Monotonicity of the face grade in the defect sizes *)

Section Monotone.

Import Grader.

Variable W : Q.

Lemma dict_le_refl (d : dict Q) : dict_le d d.
Proof.
  induction d as [| [k v] d IH]; constructor; [simpl; split; [reflexivity | lra] | exact IH].
Qed.

Lemma dict_le_get (d d' : dict Q) (k : string) :
  dict_le d d' ->
  match dict_get d k, dict_get d' k with
  | Some v, Some v' => v <= v'
  | None, None => True
  | _, _ => False
  end.
Proof.
  induction 1 as [| [k1 v1] [k2 v2] d d' [Hk Hv] _ IH]; simpl; [exact I |].
  simpl in Hk, Hv. subst k2. destruct (String.eqb k k1); [exact Hv | exact IH].
Qed.

Lemma dict_le_set (d d' : dict Q) (k : string) (v v' : Q) :
  dict_le d d' -> v <= v' -> dict_le (dict_set d k v) (dict_set d' k v').
Proof.
  intros Hd Hv.
  induction Hd as [| [k1 v1] [k2 v2] d d' [Hk Hv12] Hd IH]; simpl.
  - constructor; [split; [reflexivity | exact Hv] | constructor].
  - simpl in Hk, Hv12. subst k2. destruct (String.eqb k k1).
    + constructor; [split; [reflexivity | exact Hv] | exact Hd].
    + constructor; [split; [reflexivity | exact Hv12] | exact IH].
Qed.

Lemma convert_step_mono (d d' : dict Q) (n : gmap string Z)
  (m m' : measurement) :
  dict_le d d' -> meas_le m m' ->
  dict_le (convert_step (d, n) m).1 (convert_step (d', n) m').1
  /\ (convert_step (d, n) m).2 = (convert_step (d', n) m').2.
Proof.
  intros Hd Hm. destruct m as [[t s] p], m' as [[t' s'] p'].
  destruct Hm as [Ht Hs]. simpl in Ht, Hs. subst t'.
  unfold convert_step. split; [| reflexivity].
  cbn [fst snd]. pose proof (dict_le_get d d' (knot_type_of t) Hd) as Hget.
  destruct (dict_get d (knot_type_of t)) as [v |],
    (dict_get d' (knot_type_of t)) as [v' |]; try contradiction.
  - apply dict_le_set; [exact Hd | now apply max_mono].
  - exact Hd.
Qed.

Lemma convert_fold_mono (ms ms' : list measurement) :
  Forall2 meas_le ms ms' ->
  forall (d d' : dict Q) (n : gmap string Z),
    dict_le d d' ->
    dict_le (foldl convert_step (d, n) ms).1 (foldl convert_step (d', n) ms').1
    /\ (foldl convert_step (d, n) ms).2 = (foldl convert_step (d', n) ms').2.
Proof.
  induction 1 as [| m m' ms ms' Hm _ IH]; intros d d' n Hd; cbn [foldl].
  - split; [exact Hd | reflexivity].
  - destruct (convert_step_mono d d' n m m' Hd Hm) as [H1 H2].
    destruct (convert_step (d, n) m) as [d1 n1],
      (convert_step (d', n) m') as [d1' n1'].
    simpl in H1, H2. subst n1'. now apply IH.
Qed.

Lemma size_ok_mono (grade : string) (d d' : dict Q) :
  dict_le d d' -> size_ok W grade d' = true -> size_ok W grade d = true.
Proof.
  unfold size_ok.
  induction 1 as [| [k v] [k' v'] d d' [Hk Hv] _ IH]; [reflexivity |].
  simpl in Hk, Hv. subst k'. cbn [forallb fst snd].
  rewrite !andb_true_iff, !orb_true_iff, !Qleb_le.
  intros [[H | H] Hrest]; (split; [| now apply IH]); [now left | right; lra].
Qed.

Lemma surface_of_mono (f f' : string -> bool) :
  (forall g, f' g = true -> f g = true) ->
  exists a b : nat,
    index (surface_of f) GRADES = Some a
    /\ index (surface_of f') GRADES = Some b /\ (a <= b)%nat.
Proof.
  intros H. unfold surface_of, GRADES. cbn [List.filter].
  pose proof (H "G2-0") as H0. pose proof (H "G2-1") as H1.
  pose proof (H "G2-2") as H2. pose proof (H "G2-3") as H3.
  pose proof (H "G2-4") as H4.
  destruct (f' "G2-0"); [rewrite (H0 eq_refl) | destruct (f "G2-0")];
    try (exists 0%nat, 0%nat; repeat split; lia);
  (destruct (f' "G2-1"); [rewrite ?(H1 eq_refl) | destruct (f "G2-1")];
   (destruct (f' "G2-2"); [rewrite ?(H2 eq_refl) | destruct (f "G2-2")];
    (destruct (f' "G2-3"); [rewrite ?(H3 eq_refl) | destruct (f "G2-3")];
     (destruct (f' "G2-4"); [rewrite ?(H4 eq_refl) | destruct (f "G2-4")];
      cbn; do 2 eexists; (split; [reflexivity |]);
      (split; [reflexivity |]); lia)))).
Qed.

Lemma determine_surface_grade_first (m : measurement)
  (ms : list measurement) :
  let kd := convert_measurements_to_knot_data (m :: ms) in
  determine_surface_grade W (m :: ms)
  = Ok (surface_of
          (fun g => size_ok W g kd.1
                    && number_ok W (default 0%Z (kd.2 !! "total"))
                         (default 0%Z (kd.2 !! "unsound_only")) g)).
Proof.
  intros kd. unfold determine_surface_grade. fold kd.
  destruct kd as [d n]. rewrite single_face_grade_first, bind_Ok.
  unfold surface_of. cbn [fst snd].
  now destruct (String.eqb _ "Fails G2-4").
Qed.

(** C5: raising the size of one defect, all else fixed, never moves the
    face grade to a lower index of [GRADES]. *)
Theorem grading_monotone (measurements : list measurement) (i : nat)
  (defect_type : string) (size_mm percentage size_mm' : Q) :
  measurements !! i = Some (defect_type, size_mm, percentage) ->
  size_mm <= size_mm' ->
  exists (g g' : string) (a b : nat),
    determine_surface_grade W measurements = Ok g
    /\ determine_surface_grade W
         (<[i := (defect_type, size_mm', percentage)]> measurements) = Ok g'
    /\ index g GRADES = Some a /\ index g' GRADES = Some b /\ (a <= b)%nat.
Proof.
  intros Hi Hle.
  set (measurements' := <[i := (defect_type, size_mm', percentage)]> measurements).
  assert (Forall2 meas_le measurements measurements') as Hrel.
  { subst measurements'. revert i Hi.
    induction measurements as [| m ms IH]; intros i Hi; [discriminate Hi |].
    destruct i as [| i]; simpl in Hi |- *.
    - injection Hi as ->. constructor; [split; [reflexivity | exact Hle] |].
      clear. induction ms as [| x ms IH]; constructor;
        [split; [reflexivity | lra] | exact IH].
    - constructor; [split; [reflexivity | lra] | now apply IH]. }
  destruct measurements as [| m ms]; [discriminate Hi |].
  destruct measurements' as [| m' ms'] eqn:E; [inversion Hrel |].
  rewrite !determine_surface_grade_first.
  unfold convert_measurements_to_knot_data.
  match goal with
  | |- context [foldl convert_step (?d0, ?n0) (m :: ms)] =>
      destruct (convert_fold_mono _ _ Hrel d0 d0 n0 (dict_le_refl d0))
        as [Hd Hn]
  end.
  rewrite <- Hn.
  match goal with
  | |- exists g g' a b, Ok (surface_of ?f) = _ /\ Ok (surface_of ?f') = _ /\ _ =>
      destruct (surface_of_mono f f') as (a & b & Ha & Hb & Hab);
        [| exists (surface_of f), (surface_of f'), a, b; auto]
  end.
  intros g. cbv beta. rewrite !andb_true_iff. intros [Hs Hnum].
  split; [| exact Hnum]. eapply size_ok_mono; [exact Hd | exact Hs].
Qed.

End Monotone.

Lemma grading_monotone_witness :
  exists (g g' : string) (a b : nat),
    Grader.determine_surface_grade 115
      [("Dead_Knot", 10, 0); ("Sound_Knot", 21, 0)] = Ok g
    /\ Grader.determine_surface_grade 115
         (<[1%nat := ("Sound_Knot", 40, 0)]>
            [("Dead_Knot", 10, 0); ("Sound_Knot", 21, 0)]) = Ok g'
    /\ index g Grader.GRADES = Some a /\ index g' Grader.GRADES = Some b
    /\ (a <= b)%nat.
Proof.
  apply (grading_monotone 115 [("Dead_Knot", 10, 0); ("Sound_Knot", 21, 0)]
           1 "Sound_Knot" 21 0 40); [reflexivity | discriminate].
Defined.

Example ex_grade_worsens :
  Grader.determine_surface_grade 115
    [("Dead_Knot", 10, 0); ("Sound_Knot", 21, 0)] = Ok "G2-0"
  /\ Grader.determine_surface_grade 115
       [("Dead_Knot", 10, 0); ("Sound_Knot", 40, 0)] = Ok "G2-2".
Proof. split; vm_compute; reflexivity. Qed.

(** ** Combining the two faces *)

Section FinalGrade.

Import App.

Lemma index_not_In (x : string) (l : list string) :
  ~ In x l -> index x l = None.
Proof.
  induction l as [| y l IH]; simpl; [reflexivity |]. intros H.
  destruct (String.eqb x y) eqn:E.
  - apply String.eqb_eq in E. subst y. tauto.
  - rewrite IH; [reflexivity | tauto].
Qed.

Example ex_worst_face :
  determine_final_grade (Some "G2-1") (Some "G2-3") = Ok "G2-3"
  /\ determine_final_grade (Some "G2-4") (Some "G2-0") = Ok "G2-4"
  /\ determine_final_grade (Some "Fails G2-4") (Some "G2-1") = Ok "G2-1".
Proof. repeat split; reflexivity. Qed.

(** C10: the combination of the two faces reads a missing grade and an
    unrecognised grade string as G2-0: a grade combined with [None] is
    that grade, and two unrecognised strings combine to G2-0. *)
Theorem final_grade_fails_open :
  (forall g, In g Grader.GRADES ->
     determine_final_grade (Some g) None = Ok g
     /\ determine_final_grade None (Some g) = Ok g)
  /\ (forall s t, ~ In s Grader.GRADES -> ~ In t Grader.GRADES ->
        determine_final_grade (Some s) (Some t) = Ok "G2-0")
  /\ (forall s other, ~ In s Grader.GRADES ->
        determine_final_grade (Some s) other
        = determine_final_grade (Some "G2-0") other
        /\ determine_final_grade other (Some s)
           = determine_final_grade other (Some "G2-0"))
  /\ (forall other,
        determine_final_grade None other
        = determine_final_grade (Some "G2-0") other
        /\ determine_final_grade other None
           = determine_final_grade other (Some "G2-0")).
Proof.
  split; [| split; [| split]].
  - intros g Hg. apply In_GRADES in Hg.
    destruct Hg as [-> | [-> | [-> | [-> | ->]]]]; split; reflexivity.
  - intros s t Hs Ht. unfold determine_final_grade. cbn [default].
    change [GRADE_G2_0; GRADE_G2_1; GRADE_G2_2; GRADE_G2_3; GRADE_G2_4]
      with Grader.GRADES.
    rewrite (index_not_In s), (index_not_In t) by assumption. reflexivity.
  - intros s other Hs. unfold determine_final_grade. cbn [default].
    change [GRADE_G2_0; GRADE_G2_1; GRADE_G2_2; GRADE_G2_3; GRADE_G2_4]
      with Grader.GRADES.
    rewrite (index_not_In s) by assumption. split; reflexivity.
  - intros other. split; reflexivity.
Qed.

Lemma final_grade_fails_open_witness :
  determine_final_grade (Some "G2-2") None = Ok "G2-2"
  /\ determine_final_grade (Some "Fails G2-4") (Some "unknown") = Ok "G2-0".
Proof.
  destruct final_grade_fails_open as (H1 & H2 & _). split.
  - apply (H1 "G2-2"). simpl. tauto.
  - apply H2; simpl; intuition discriminate.
Defined.

End FinalGrade.

(** ** Rectangle tests *)

Section Rectangles.

Import App Wood Geometry.

Lemma max_Qmax (a b : Q) : max a b == Qmax a b.
Proof.
  unfold max. destruct (Qgtb b a) eqn:E.
  - apply Qgtb_lt in E. rewrite Q.max_r; [reflexivity | lra].
  - apply Qltb_ge in E. rewrite Q.max_l; [reflexivity | exact E].
Qed.

Lemma min_Qmin (a b : Q) : min a b == Qmin a b.
Proof.
  unfold min. destruct (Qltb b a) eqn:E.
  - apply Qltb_lt in E. rewrite Q.min_r; [reflexivity | lra].
  - apply Qltb_ge in E. rewrite Q.min_l; [reflexivity | exact E].
Qed.

Lemma overlap_length_nonneg (lo1 hi1 lo2 hi2 : Q) :
  0 <= overlap_length lo1 hi1 lo2 hi2.
Proof. unfold overlap_length. apply Q.le_max_l. Qed.

(** The common part has positive length exactly when each interval starts
    strictly before the end of both. *)
Lemma overlap_length_pos (lo1 hi1 lo2 hi2 : Q) :
  0 < overlap_length lo1 hi1 lo2 hi2
  <-> lo1 < hi1 /\ lo1 < hi2 /\ lo2 < hi1 /\ lo2 < hi2.
Proof.
  unfold overlap_length. rewrite Q.max_lt_iff.
  assert (0 < Qmin hi1 hi2 - Qmax lo1 lo2 <-> Qmax lo1 lo2 < Qmin hi1 hi2)
    as -> by (split; lra).
  rewrite Q.max_lub_lt_iff, !Q.min_glb_lt_iff.
  split; [intros [H | H]; [lra | tauto] | intros H; right; tauto].
Qed.

Lemma Qmult_pos_iff (a b : Q) : 0 <= a -> 0 <= b -> (0 < a * b <-> 0 < a /\ 0 < b).
Proof.
  intros Ha Hb. split.
  - intros H. split.
    + apply Qnot_le_lt. intros Ha0. assert (a == 0) as E by lra.
      rewrite E in H. lra.
    + apply Qnot_le_lt. intros Hb0. assert (b == 0) as E by lra.
      rewrite E in H. lra.
  - intros [H1 H2]. nra.
Qed.

Example ex_scenario_5 :
  _check_bbox_intersection 100 50 300 150 0 0 400 70 = true
  /\ check_roi_collision 100 50 200 100 0 0 400 70 = true.
Proof. split; reflexivity. Qed.

(** Two boxes that share only an edge: the test of the lane alignment check
    reports an intersection although the common area is zero. *)
Lemma touching_boxes_intersect :
  _check_bbox_intersection 0 0 10 10 10 0 20 10 = true
  /\ intersection_area (0, 0, 10, 10) (10, 0, 20, 10) == 0
  /\ check_roi_collision 0 0 10 10 10 0 10 10 = false.
Proof. repeat split; reflexivity. Qed.

(** C8 (amended): [check_roi_collision] compares strictly: for rectangles
    of positive width and height it is true exactly when the common area is
    not zero, so touching edges do not count.  [_check_bbox_intersection],
    the test the lane alignment check calls, compares non-strictly: for
    well-formed boxes it is true exactly when the closed boxes share a
    point, so boxes whose edges merely touch do count. *)
Theorem rectangle_tests
  (x1 y1 w1 h1 x2 y2 w2 h2 : Q) :
  0 < w1 -> 0 < h1 -> 0 < w2 -> 0 < h2 ->
  (check_roi_collision x1 y1 w1 h1 x2 y2 w2 h2 = true
   <-> 0 < intersection_area (corners (x1, y1, w1, h1))
             (corners (x2, y2, w2, h2)))
  /\ (_check_bbox_intersection x1 y1 (x1 + w1) (y1 + h1)
        x2 y2 (x2 + w2) (y2 + h2) = true
      <-> exists px py,
            inside px py (corners (x1, y1, w1, h1))
            /\ inside px py (corners (x2, y2, w2, h2))).
Proof.
  intros Hw1 Hh1 Hw2 Hh2. split.
  - unfold check_roi_collision, intersection_area, corners.
    rewrite Qmult_pos_iff by apply overlap_length_nonneg.
    rewrite !overlap_length_pos, !andb_true_iff, !Qltb_lt, !Qgtb_lt.
    split; intros H; repeat split; lra.
  - unfold _check_bbox_intersection, corners, inside.
    rewrite negb_true_iff, !orb_false_iff, !Qltb_ge.
    unfold Qgtb. rewrite !Qltb_ge. split.
    + intros [[[Ha Hb] Hc] Hd].
      exists (Qmax x1 x2), (Qmax y1 y2).
      pose proof (Q.le_max_l x1 x2). pose proof (Q.le_max_r x1 x2).
      pose proof (Q.le_max_l y1 y2). pose proof (Q.le_max_r y1 y2).
      assert (Qmax x1 x2 <= x1 + w1) by (apply Q.max_lub; lra).
      assert (Qmax x1 x2 <= x2 + w2) by (apply Q.max_lub; lra).
      assert (Qmax y1 y2 <= y1 + h1) by (apply Q.max_lub; lra).
      assert (Qmax y1 y2 <= y2 + h2) by (apply Q.max_lub; lra).
      repeat split; assumption.
    + intros (px & py & [[? ?] [? ?]] & [[? ?] [? ?]]). repeat split; lra.
Qed.

Lemma rectangle_tests_witness :
  check_roi_collision 100 50 200 100 0 0 400 70 = true
  /\ _check_bbox_intersection 0 0 (0 + 10) (0 + 10) 10 0 (10 + 10) (0 + 10)
     = true.
Proof.
  split.
  - destruct (rectangle_tests 100 50 200 100 0 0 400 70) as [H _];
      [reflexivity | reflexivity | reflexivity | reflexivity |].
    apply H. vm_compute. reflexivity.
  - destruct (rectangle_tests 0 0 10 10 10 0 10 10) as [_ H];
      [reflexivity | reflexivity | reflexivity | reflexivity |].
    apply H. exists 10, 5. unfold inside, corners.
    repeat split; discriminate.
Defined.

End Rectangles.

(** ** The confidence gate and the ROI gate *)

Section Gates.

Import App Geometry.

Variables (scale pad_x pad_y original_w original_h : Q).
Variable dynamic_wood_roi : option (Q * Q * Q * Q).
Variable map_model_output_to_standard : string -> string.
Variable calculate_defect_size : box -> Q.

#[local] Abbreviation locate :=
  (locate_detection scale pad_x pad_y original_w original_h
     dynamic_wood_roi map_model_output_to_standard calculate_defect_size).
#[local] Abbreviation analyzed :=
  (current_detections scale pad_x pad_y original_w original_h
     dynamic_wood_roi map_model_output_to_standard calculate_defect_size).

Lemma confidence_gate_iff (det : raw_detection) :
  confidence_gate det = true
  <-> confidence_of det == 0 \/ MIN_CONFIDENCE <= confidence_of det.
Proof.
  unfold confidence_gate.
  rewrite negb_true_iff, andb_false_iff, negb_false_iff, Qeqb_eq, Qltb_ge.
  reflexivity.
Qed.

(** The loop is the confidence gate followed by the rest of the body. *)
Lemma current_detections_stages (results : list raw_detection) :
  analyzed results = omap locate (List.filter confidence_gate results).
Proof.
  unfold current_detections.
  induction results as [| det results IH]; [reflexivity |].
  cbn [omap list_omap List.filter]. unfold analyze_detection at 1.
  destruct (confidence_gate det); cbn [omap list_omap]; now rewrite IH.
Qed.

Lemma locate_confidence (det : raw_detection) (d : detection) :
  locate det = Some d -> confidence d = confidence_of det.
Proof.
  unfold locate_detection. destruct (raw_bbox det) as [[[b0 b1] b2] b3].
  destruct (_ || _); [discriminate |].
  destruct (negb _); [discriminate |]. now intros [= <-].
Qed.

Example ex_confidence_gate :
  List.map confidence_gate
    [ {| label := "a"; raw_bbox := (0, 0, 1, 1); raw_confidence := Some 0 |};
      {| label := "b"; raw_bbox := (0, 0, 1, 1); raw_confidence := Some (1 # 10) |};
      {| label := "c"; raw_bbox := (0, 0, 1, 1); raw_confidence := Some (1 # 4) |};
      {| label := "d"; raw_bbox := (0, 0, 1, 1); raw_confidence := None |} ]
  = [true; false; true; true].
Proof. reflexivity. Qed.

(** C2: the detections that survive the confidence gate have confidence 0
    or at least [MIN_CONFIDENCE] (0.25); a detection with confidence strictly
    between 0 and the threshold is dropped; a detection with confidence 0
    survives the gate. *)
Theorem confidence_gate_sound (results : list raw_detection) :
  MIN_CONFIDENCE == 1 # 4
  /\ analyzed results = omap locate (List.filter confidence_gate results)
  /\ (forall det, In det (List.filter confidence_gate results) ->
        confidence_of det == 0 \/ MIN_CONFIDENCE <= confidence_of det)
  /\ (forall det, In det results ->
        0 < confidence_of det -> confidence_of det < MIN_CONFIDENCE ->
        ~ In det (List.filter confidence_gate results)
        /\ analyze_detection scale pad_x pad_y original_w original_h
             dynamic_wood_roi map_model_output_to_standard
             calculate_defect_size det = None)
  /\ (forall det, In det results -> confidence_of det == 0 ->
        In det (List.filter confidence_gate results))
  /\ (forall d, In d (analyzed results) ->
        confidence d == 0 \/ MIN_CONFIDENCE <= confidence d).
Proof.
  split; [reflexivity |]. split; [apply current_detections_stages |].
  split; [| split; [| split]].
  - intros det Hin. apply filter_In in Hin as [_ Hg].
    now apply confidence_gate_iff.
  - intros det _ Hpos Hlt.
    assert (confidence_gate det = false) as Hg.
    { apply not_true_iff_false. rewrite confidence_gate_iff. lra. }
    split.
    + rewrite filter_In. rewrite Hg. intros [_ H]. discriminate H.
    + unfold analyze_detection. now rewrite Hg.
  - intros det Hin Hz. apply filter_In. split; [exact Hin |].
    apply confidence_gate_iff. now left.
  - intros d Hin. rewrite current_detections_stages in Hin.
    apply list_elem_of_In, list_elem_of_omap in Hin as (det & Hdet & Hloc).
    apply list_elem_of_In, filter_In in Hdet as [_ Hg].
    rewrite (locate_confidence det d Hloc). now apply confidence_gate_iff.
Qed.

End Gates.

Lemma confidence_gate_sound_witness :
  let low := {| App.label := "knot"; App.raw_bbox := (0, 0, 10, 10);
                App.raw_confidence := Some (1 # 10) |} in
  let zero := {| App.label := "knot"; App.raw_bbox := (0, 0, 10, 10);
                 App.raw_confidence := Some 0 |} in
  ~ In low (List.filter App.confidence_gate [low; zero])
  /\ In zero (List.filter App.confidence_gate [low; zero]).
Proof.
  intros low zero.
  destruct (confidence_gate_sound 1 0 0 10 10 None (fun s => s) (fun _ => 1)
              [low; zero]) as (_ & _ & _ & Hdrop & Hkeep & _).
  split.
  - apply (Hdrop low); [simpl; tauto | reflexivity | reflexivity].
  - apply (Hkeep zero); [simpl; tauto | reflexivity].
Defined.

Section RoiGate.

Import App Geometry.

Example ex_overlap_inside :
  bbox_inside_roi [10; 10; 20; 20] (Some (0, 0, 100, 100)) (7 # 10) = true
  /\ bbox_inside_roi [90; 10; 110; 20] (Some (0, 0, 100, 100)) (7 # 10) = false
  /\ bbox_inside_roi [90; 10; 110; 20] None (7 # 10) = true
  /\ bbox_inside_roi [0; 0; 10; 10] (Some (0, 0, 7, 10)) (7 # 10) = true.
Proof. repeat split; reflexivity. Qed.

(** The area the function computes is the area of the common part. *)
Lemma intersection_area_code (x1 y1 x2 y2 rx1 ry1 rx2 ry2 : Q) :
  Qleb (min x2 rx2) (max x1 rx1) || Qleb (min y2 ry2) (max y1 ry1) = false ->
  (min x2 rx2 - max x1 rx1) * (min y2 ry2 - max y1 ry1)
  == intersection_area (x1, y1, x2, y2) (rx1, ry1, rx2, ry2).
Proof.
  rewrite orb_false_iff, <- !not_true_iff_false, !Qleb_le.
  intros [Hx Hy]. unfold intersection_area, overlap_length.
  rewrite !max_Qmax, !min_Qmin in *.
  apply Qnot_le_lt in Hx, Hy. rewrite !(Q.max_r 0) by lra. reflexivity.
Qed.

Lemma intersection_area_empty (x1 y1 x2 y2 rx1 ry1 rx2 ry2 : Q) :
  Qleb (min x2 rx2) (max x1 rx1) || Qleb (min y2 ry2) (max y1 ry1) = true ->
  intersection_area (x1, y1, x2, y2) (rx1, ry1, rx2, ry2) == 0.
Proof.
  rewrite orb_true_iff, !Qleb_le, !max_Qmax, !min_Qmin.
  unfold intersection_area. intros [H | H].
  - assert (overlap_length x1 x2 rx1 rx2 == 0) as ->
      by (unfold overlap_length; apply Q.max_l; lra).
    ring.
  - assert (overlap_length y1 y2 ry1 ry2 == 0) as ->
      by (unfold overlap_length; apply Q.max_l; lra).
    ring.
Qed.

(** C3: without a dynamic wood ROI the gate accepts every detection; with
    one, a detection box of positive area is accepted exactly when the area
    it shares with the ROI, divided by its own area, is at least 0.7, and a
    box without positive area is rejected. *)
Theorem roi_gate (x1 y1 x2 y2 : Q) (roi : Q * Q * Q * Q) :
  (forall (bbox : list Q) (t : Q), bbox_inside_roi bbox None t = true)
  /\ (0 < box_area (x1, y1, x2, y2) ->
      (bbox_inside_roi [x1; y1; x2; y2] (Some roi) (7 # 10) = true
       <-> 7 # 10 <= intersection_area (x1, y1, x2, y2) (corners roi)
                     / box_area (x1, y1, x2, y2)))
  /\ (box_area (x1, y1, x2, y2) <= 0 ->
      bbox_inside_roi [x1; y1; x2; y2] (Some roi) (7 # 10) = false).
Proof.
  split; [reflexivity |]. destruct roi as [[[rx ry] rw] rh].
  unfold bbox_inside_roi, box_area, corners. split.
  - intros Hpos.
    destruct (Qleb (min x2 (rx + rw)) (max x1 rx)
              || Qleb (min y2 (ry + rh)) (max y1 ry)) eqn:E.
    + rewrite (intersection_area_empty _ _ _ _ _ _ _ _ E).
      split; [discriminate |]. unfold Qdiv. rewrite Qmult_0_l. lra.
    + rewrite <- (intersection_area_code _ _ _ _ _ _ _ _ E).
      destruct (Qleb ((x2 - x1) * (y2 - y1)) 0) eqn:Ea.
      * apply Qleb_le in Ea. lra.
      * apply Qgeb_le.
  - intros Hneg.
    destruct (_ || _); [reflexivity |].
    destruct (Qleb ((x2 - x1) * (y2 - y1)) 0) eqn:Ea; [reflexivity |].
    apply not_true_iff_false in Ea. rewrite Qleb_le in Ea. contradiction.
Qed.

Lemma roi_gate_witness :
  bbox_inside_roi [0; 0; 10; 10] (Some (0, 0, 7, 10)) (7 # 10) = true
  /\ bbox_inside_roi [5; 5; 5; 9] (Some (0, 0, 7, 10)) (7 # 10) = false.
Proof.
  split.
  - destruct (roi_gate 0 0 10 10 (0, 0, 7, 10)) as (_ & H & _).
    apply H; [reflexivity |]. vm_compute. discriminate.
  - destruct (roi_gate 5 5 5 9 (0, 0, 7, 10)) as (_ & _ & H).
    apply H. vm_compute. discriminate.
Defined.

End RoiGate.

(** ** Merging a detection into the current cluster *)

Section Merge.

Import Dedup.

Variables (spatial_threshold_mm temporal_threshold_sec : Q).
Variable seconds : string -> Q.

#[local] Abbreviation matches := (Dedup.matches spatial_threshold_mm).

Lemma merge_loop_iff (detection : detection) (cluster : list Dedup.detection) :
  merge_loop spatial_threshold_mm detection cluster = true
  <-> exists c, In c cluster /\ matches detection c.
Proof.
  unfold matches. induction cluster as [| c cluster IH]; cbn [merge_loop].
  - split; [discriminate | intros (c & [] & _)].
  - destruct (String.eqb (defect_type detection) (defect_type c)) eqn:Et;
      cbn [andb].
    + apply String.eqb_eq in Et.
      destruct (Qleb (abs (size_mm detection - size_mm c))
                  spatial_threshold_mm) eqn:Es.
      * apply Qleb_le in Es.
        destruct (truthy (bbox detection) && truthy (bbox c)) eqn:Eb.
        -- destruct (Qgtb _ (1 # 2)) eqn:Ei.
           ++ apply Qgtb_lt in Ei. split; [intros _ | reflexivity].
              exists c. split; [now left | auto].
           ++ apply Qltb_ge in Ei. apply andb_true_iff in Eb as [Eb1 Eb2].
              rewrite IH. split.
              ** intros (c' & Hin & H). exists c'. split; [now right | exact H].
              ** intros (c' & [<- | Hin] & H); [| now exists c'].
                 destruct H as (_ & _ & H). specialize (H Eb1 Eb2). lra.
        -- split; [intros _ | reflexivity]. exists c. split; [now left |].
           split; [exact Et |]. split; [exact Es |]. intros H1 H2.
           rewrite H1, H2 in Eb. discriminate Eb.
      * apply not_true_iff_false in Es. rewrite Qleb_le in Es. rewrite IH.
        split.
        -- intros (c' & Hin & H). exists c'. split; [now right | exact H].
        -- intros (c' & [<- | Hin] & H); [| now exists c'].
           destruct H as (_ & H & _). contradiction.
    + apply String.eqb_neq in Et. rewrite IH. split.
      * intros (c' & Hin & H). exists c'. split; [now right | exact H].
      * intros (c' & [<- | Hin] & H); [| now exists c'].
        destruct H as (H & _). contradiction.
Qed.

(** C6 (amended): a detection merges into a non-empty cluster exactly when
    its time gap to the last member is at most the temporal threshold and
    some member has the same defect type, a size within the spatial
    threshold and, when both carry a non-empty bounding box, an IoU strictly
    greater than 0.5; without a box on either side the type and size match
    suffices. *)
Theorem should_merge_iff (detection last_detection : detection)
  (cluster : list Dedup.detection) :
  last cluster = Some last_detection ->
  exists b,
    _should_merge_with_cluster spatial_threshold_mm temporal_threshold_sec
      seconds detection cluster = Ok b
    /\ (b = true
        <-> abs (seconds (timestamp detection)
                 - seconds (timestamp last_detection))
            <= temporal_threshold_sec
            /\ exists c, In c cluster /\ matches detection c).
Proof.
  intros Hlast. unfold _should_merge_with_cluster. rewrite Hlast.
  destruct (Qgtb _ temporal_threshold_sec) eqn:Et.
  - exists false. split; [reflexivity |]. apply Qgtb_lt in Et.
    split; [discriminate | intros [H _]; lra].
  - eexists. split; [reflexivity |]. apply Qltb_ge in Et.
    rewrite merge_loop_iff. tauto.
Qed.

End Merge.

(** Two detections of the same type, size and time whose boxes have an IoU
    of exactly 0.5 are not merged. *)
Lemma iou_half_not_merged :
  let d := {| Dedup.timestamp := "2025-01-01T10:00:00";
              Dedup.defect_type := "Dead_Knot"; Dedup.size_mm := 12;
              Dedup.bbox := Some [0; 0; 2; 1] |} in
  let c := {| Dedup.timestamp := "2025-01-01T10:00:00";
              Dedup.defect_type := "Dead_Knot"; Dedup.size_mm := 12;
              Dedup.bbox := Some [0; 0; 1; 1] |} in
  Dedup._calculate_bbox_iou [0; 0; 2; 1] [0; 0; 1; 1] == 1 # 2
  /\ 1 # 2 <= Dedup._calculate_bbox_iou [0; 0; 2; 1] [0; 0; 1; 1]
  /\ Dedup._should_merge_with_cluster 5 (2 # 10) (fun _ => 0) d [c] = Ok false.
Proof. repeat split; vm_compute; congruence. Qed.

Lemma should_merge_iff_witness :
  let d := {| Dedup.timestamp := "2025-01-01T10:00:00";
              Dedup.defect_type := "Dead_Knot"; Dedup.size_mm := 12;
              Dedup.bbox := Some [0; 0; 10; 10] |} in
  let c := {| Dedup.timestamp := "2025-01-01T10:00:00";
              Dedup.defect_type := "Dead_Knot"; Dedup.size_mm := 9;
              Dedup.bbox := Some [0; 0; 10; 6] |} in
  exists b,
    Dedup._should_merge_with_cluster 5 (2 # 10) (fun _ => 0) d [c] = Ok b
    /\ b = true.
Proof.
  intros d c.
  destruct (should_merge_iff 5 (2 # 10) (fun _ => 0) d c [c] eq_refl)
    as (b & Hb & Hiff).
  exists b. split; [exact Hb |]. apply Hiff. split; [vm_compute; discriminate |].
  exists c. split; [now left |]. split; [reflexivity |].
  split; [vm_compute; discriminate |]. intros _ _. vm_compute. reflexivity.
Defined.

(** ** The authoritative wood width *)

Section WoodWidth.

Import Wood.

Lemma abs_self_small (d : Q) : Qgtb (abs (d - d)) (1 # 1000) = false.
Proof.
  apply Qltb_ge. unfold abs. apply Qabs_Qle_condition. split; lra.
Qed.

(** After the assignments of a bottom-camera update the validation finds
    nothing to correct. *)
Lemma validate_after_assignment (st : state) (d : Q) :
  _validate_wood_width_sync (set_width (set_detected st "bottom" d) d) d
    "bottom"
  = Ok (set_width (set_detected st "bottom" d) d).
Proof.
  unfold _validate_wood_width_sync. cbn [String.eqb negb].
  change (("bottom" =? "bottom")%string) with true. cbn [negb].
  cbn [WOOD_PALLET_WIDTH_MM set_width]. rewrite abs_self_small.
  cbn [detected_wood_width_mm set_width set_detected].
  rewrite lookup_insert_eq. now rewrite abs_self_small.
Qed.

Lemma after_call_pixel_per_mm (st : state) (c : call) :
  pixel_per_mm_bottom (after_call st c) = pixel_per_mm_bottom st
  /\ pixel_per_mm_top (after_call st c) = pixel_per_mm_top st.
Proof.
  destruct c as [camera_name [| cand cands]]; unfold after_call;
    cbn [fst snd update_wood_width_dynamic]; [split; reflexivity |].
  destruct (cand_bbox cand) as [[[x y] w] h].
  destruct (calculate_width_mm st h camera_name) as [d | e];
    [| split; reflexivity].
  rewrite bind_Ok. destruct (String.eqb camera_name "bottom") eqn:E.
  - apply String.eqb_eq in E. subst camera_name.
    rewrite validate_after_assignment, bind_Ok. split; reflexivity.
  - split; reflexivity.
Qed.

Lemma after_calls_pixel_per_mm (calls : list call) (st : state) :
  pixel_per_mm_bottom (after_calls st calls) = pixel_per_mm_bottom st.
Proof.
  unfold after_calls. revert st.
  induction calls as [| c calls IH]; intros st; [reflexivity |].
  cbn [foldl]. rewrite IH. apply after_call_pixel_per_mm.
Qed.

(** A call of another camera, or with no candidate, keeps the global. *)
Lemma after_call_other (st : state) (c : call) :
  authoritative c = false ->
  WOOD_PALLET_WIDTH_MM (after_call st c) = WOOD_PALLET_WIDTH_MM st.
Proof.
  destruct c as [camera_name [| cand cands]]; unfold after_call, authoritative;
    cbn [fst snd update_wood_width_dynamic]; [reflexivity |].
  rewrite andb_false_iff. intros [E | E]; [| discriminate E].
  destruct (cand_bbox cand) as [[[x y] w] h].
  destruct (calculate_width_mm st h camera_name) as [d | e]; [| reflexivity].
  rewrite bind_Ok, E. reflexivity.
Qed.

(** A bottom-camera detection sets the global to the derived width. *)
Lemma after_call_authoritative (st : state) (c : call) :
  ~ pixel_per_mm_bottom st == 0 -> authoritative c = true ->
  WOOD_PALLET_WIDTH_MM (after_call st c) = derived_width st c.
Proof.
  intros Hppm. destruct c as [camera_name [| cand cands]];
    unfold after_call, authoritative, derived_width;
    cbn [fst snd update_wood_width_dynamic];
    rewrite andb_true_iff; intros [E Hne]; [discriminate Hne |].
  apply String.eqb_eq in E. subst camera_name.
  destruct (cand_bbox cand) as [[[x y] w] h]. cbn [snd].
  unfold calculate_width_mm, truediv.
  change (("bottom" =? "top")%string) with false.
  change (("bottom" =? "bottom")%string) with true. cbn iota.
  destruct (Qeqb (pixel_per_mm_bottom st) 0) eqn:Ez.
  - apply Qeqb_eq in Ez. contradiction.
  - rewrite bind_Ok, validate_after_assignment, bind_Ok. reflexivity.
Qed.

Example ex_wood_width_calls :
  let bottom h := ("bottom", [ {| cand_bbox := (0, 0, 600, h) |} ]) in
  let top h := ("top", [ {| cand_bbox := (0, 0, 600, h) |} ]) in
  WOOD_PALLET_WIDTH_MM
    (after_calls initial [top 296; bottom 350; top 592; ("bottom", [])])
  == 100
  /\ WOOD_PALLET_WIDTH_MM (after_calls initial [top 296; top 592]) == 0
  /\ get_wood_width_for_grading (after_calls initial [top 296; top 592])
       default_fallback_mm == 100.
Proof. repeat split; vm_compute; reflexivity. Qed.

(** C4: after any sequence of update calls the global wood width is the
    width derived from the most recent bottom-camera call with a non-empty
    candidate list, or its value before the sequence when there is none; a
    top-camera call never changes it; and when no bottom-camera detection
    has occurred since start-up, grading uses the fallback of 100 mm. *)
Theorem wood_width_authority (st : state) (calls : list call) :
  ~ pixel_per_mm_bottom st == 0 ->
  WOOD_PALLET_WIDTH_MM (after_calls st calls)
  = match last_authoritative calls with
    | Some c => derived_width st c
    | None => WOOD_PALLET_WIDTH_MM st
    end
  /\ (forall st' wood_candidates,
        WOOD_PALLET_WIDTH_MM (after_call st' ("top", wood_candidates))
        = WOOD_PALLET_WIDTH_MM st')
  /\ (last_authoritative calls = None ->
      get_wood_width_for_grading (after_calls initial calls)
        default_fallback_mm = 100).
Proof.
  intros Hppm.
  assert (forall s, ~ pixel_per_mm_bottom s == 0 ->
            WOOD_PALLET_WIDTH_MM (after_calls s calls)
            = match last_authoritative calls with
              | Some c => derived_width s c
              | None => WOOD_PALLET_WIDTH_MM s
              end) as Hmain.
  { clear st Hppm. intros s Hs. unfold last_authoritative, after_calls.
    induction calls as [| c calls IH] using rev_ind; [reflexivity |].
    rewrite foldl_app, List.filter_app. cbn [foldl List.filter].
    fold (after_calls s calls).
    destruct (authoritative c) eqn:Ec.
    - rewrite last_snoc, after_call_authoritative;
        [| now rewrite after_calls_pixel_per_mm | exact Ec].
      unfold derived_width. now rewrite after_calls_pixel_per_mm.
    - rewrite app_nil_r, after_call_other by exact Ec. exact IH. }
  split; [now apply Hmain |]. split.
  - intros st' cands. now apply after_call_other.
  - intros Hnone. unfold get_wood_width_for_grading.
    rewrite (Hmain initial) by (vm_compute; discriminate).
    rewrite Hnone. reflexivity.
Qed.

Lemma wood_width_authority_witness :
  let bottom h := ("bottom", [ {| cand_bbox := (0, 0, 600, h) |} ]) in
  let top h := ("top", [ {| cand_bbox := (0, 0, 600, h) |} ]) in
  WOOD_PALLET_WIDTH_MM (after_calls initial [bottom 700; top 296; bottom 350])
  = 350 / (35 # 10)
  /\ get_wood_width_for_grading (after_calls initial [top 296])
       default_fallback_mm = 100.
Proof.
  intros bottom top. split.
  - destruct (wood_width_authority initial [bottom 700; top 296; bottom 350])
      as (H & _); [vm_compute; discriminate |].
    rewrite H. reflexivity.
  - destruct (wood_width_authority initial [top 296]) as (_ & _ & H);
      [vm_compute; discriminate |].
    apply H. reflexivity.
Defined.

End WoodWidth.

(** ** Greedy non-max suppression *)

Section Suppression.

Import App.

Lemma max_comm (a b : Q) : max a b == max b a.
Proof.
  unfold max. destruct (Qgtb b a) eqn:E1, (Qgtb a b) eqn:E2;
    rewrite ?Qgtb_lt in *; try apply Qltb_ge in E1; try apply Qltb_ge in E2;
    lra.
Qed.

Lemma min_comm (a b : Q) : min a b == min b a.
Proof.
  unfold min. destruct (Qltb b a) eqn:E1, (Qltb a b) eqn:E2;
    rewrite ?Qltb_lt in *; try apply Qltb_ge in E1; try apply Qltb_ge in E2;
    lra.
Qed.

Lemma Qleb_proper (a a' b b' : Q) : a == a' -> b == b' -> Qleb a b = Qleb a' b'.
Proof. intros Ha Hb. unfold Qleb. now rewrite Ha, Hb. Qed.

Lemma Qltb_proper (a a' b b' : Q) : a == a' -> b == b' -> Qltb a b = Qltb a' b'.
Proof. intros Ha Hb. unfold Qltb. now rewrite Ha, Hb. Qed.

(** The IoU does not depend on the order of the two boxes. *)
Lemma calculate_iou_sym (box1 box2 : box) :
  calculate_iou box1 box2 == calculate_iou box2 box1.
Proof.
  destruct box1 as [[[x1 y1] x2] y2], box2 as [[[u1 v1] u2] v2].
  unfold calculate_iou.
  pose proof (max_comm x1 u1) as Ex1. pose proof (max_comm y1 v1) as Ey1.
  pose proof (min_comm x2 u2) as Ex2. pose proof (min_comm y2 v2) as Ey2.
  rewrite (Qleb_proper _ _ _ _ Ex2 Ex1), (Qleb_proper _ _ _ _ Ey2 Ey1).
  destruct (_ || _); [reflexivity |].
  set (i := (min x2 u2 - max x1 u1) * (min y2 v2 - max y1 v1)).
  set (i' := (min u2 x2 - max u1 x1) * (min v2 y2 - max v1 y1)).
  assert (i == i') as Ei by (subst i i'; now rewrite Ex1, Ex2, Ey1, Ey2).
  set (a := (x2 - x1) * (y2 - y1)). set (b := (u2 - u1) * (v2 - v1)).
  assert (a + b - i == b + a - i') as Eu by (rewrite Ei; ring).
  unfold Qgtb. rewrite (Qltb_proper 0 0 _ _ (Qeq_refl 0) Eu).
  destruct (Qltb 0 (b + a - i')); [| reflexivity]. now rewrite Eu, Ei.
Qed.

Lemma overlap_loop_greedy (t : Q) (l kept : list detection) :
  greedy t kept l -> overlap_loop t l kept = kept ++ l.
Proof.
  revert kept. induction l as [| d l IH]; intros kept; cbn [overlap_loop greedy].
  - intros _. now rewrite app_nil_r.
  - intros [Hd Hl]. rewrite Hd.
    rewrite (IH _ Hl), <- app_assoc. reflexivity.
Qed.

Lemma overlap_loop_selects (t : Q) (l kept : list detection) :
  exists out,
    overlap_loop t l kept = kept ++ out
    /\ greedy t kept out
    /\ (forall d, In d out -> In d l)
    /\ (StronglySorted by_confidence l -> StronglySorted by_confidence out).
Proof.
  revert kept. induction l as [| d l IH]; intros kept; cbn [overlap_loop].
  - exists []. rewrite app_nil_r. repeat split; auto.
  - destruct (is_overlapping t d kept) eqn:Hd.
    + destruct (IH kept) as (out & Heq & Hg & Hin & Hs).
      exists out. split; [exact Heq |]. split; [exact Hg |].
      split; [intros x Hx; right; now apply Hin |].
      intros Hsorted. apply Hs. now inversion Hsorted.
    + destruct (IH (kept ++ [d])) as (out & Heq & Hg & Hin & Hs).
      exists (d :: out). split; [now rewrite Heq, <- app_assoc |].
      split; [split; [exact Hd | exact Hg] |].
      split; [intros x [<- | Hx]; [now left | right; now apply Hin] |].
      intros Hsorted. inversion Hsorted as [| ? ? Hl Hall]; subst.
      constructor; [now apply Hs |].
      rewrite Forall_forall in *. intros x Hx.
      apply Hall, list_elem_of_In, Hin, list_elem_of_In, Hx.
Qed.

Lemma greedy_later_earlier (t : Q) (l kept l1 l2 : list detection)
  (d s : detection) :
  greedy t kept l -> l = l1 ++ d :: l2 -> In s (kept ++ l1) ->
  Qgtb (calculate_iou (bbox d) (bbox s)) t = false.
Proof.
  revert kept l1. induction l as [| e l IH]; intros kept l1 Hg Hl Hs.
  - destruct l1; discriminate Hl.
  - destruct Hg as [He Hg]. destruct l1 as [| e' l1]; simplify_eq/=.
    + rewrite app_nil_r in Hs. unfold is_overlapping in He.
      apply not_true_iff_false. intros Hov.
      apply not_true_iff_false in He. apply He, existsb_exists.
      exists s. split; [exact Hs | exact Hov].
    + apply (IH (kept ++ [e']) l1 Hg eq_refl).
      rewrite <- app_assoc. exact Hs.
Qed.

Lemma insert_In (d x : detection) (l : list detection) :
  In x (insert_by_confidence d l) <-> x = d \/ In x l.
Proof.
  induction l as [| e l IH]; cbn [insert_by_confidence].
  - simpl. intuition.
  - destruct (Qgeb (confidence d) (confidence e)); simpl in *; intuition.
Qed.

Lemma sorted_In (x : detection) (l : list detection) :
  In x (sorted_by_confidence l) <-> In x l.
Proof.
  unfold sorted_by_confidence. induction l as [| d l IH]; [reflexivity |].
  cbn [foldr]. rewrite insert_In, IH. simpl. intuition.
Qed.

Lemma insert_sorted (d : detection) (l : list detection) :
  StronglySorted by_confidence l ->
  StronglySorted by_confidence (insert_by_confidence d l).
Proof.
  induction 1 as [| e l Hl IH Hall]; cbn [insert_by_confidence].
  - repeat constructor.
  - destruct (Qgeb (confidence d) (confidence e)) eqn:E.
    + apply Qgeb_le in E. constructor; [now constructor |].
      constructor; [exact E |]. rewrite Forall_forall in *.
      intros x Hx. specialize (Hall x Hx). unfold by_confidence in *. lra.
    + apply not_true_iff_false in E. rewrite Qgeb_le in E.
      constructor; [exact IH |]. rewrite Forall_forall in *.
      intros x Hx. apply list_elem_of_In, insert_In in Hx as [-> | Hx].
      * unfold by_confidence. lra.
      * apply Hall, list_elem_of_In, Hx.
Qed.

Lemma sorted_by_confidence_sorted (l : list detection) :
  StronglySorted by_confidence (sorted_by_confidence l).
Proof.
  unfold sorted_by_confidence. induction l as [| d l IH]; cbn [foldr].
  - constructor.
  - now apply insert_sorted.
Qed.

(** The sort is stable: a list already in descending order is unchanged. *)
Lemma sorted_by_confidence_fixed (l : list detection) :
  StronglySorted by_confidence l -> sorted_by_confidence l = l.
Proof.
  unfold sorted_by_confidence.
  induction 1 as [| d l Hl IH Hall]; [reflexivity |].
  cbn [foldr]. rewrite IH. destruct l as [| e l]; [reflexivity |].
  cbn [insert_by_confidence]. apply Forall_inv in Hall.
  apply Qgeb_le in Hall. now rewrite Hall.
Qed.

Example ex_suppression :
  let d1 := {| bbox := (0, 0, 10, 10); defect_type := "Dead_Knot";
               size_mm := 3; confidence := 5 # 10 |} in
  let d2 := {| bbox := (1, 0, 11, 10); defect_type := "Sound_Knot";
               size_mm := 3; confidence := 9 # 10 |} in
  let d3 := {| bbox := (20, 20, 30, 30); defect_type := "Dead_Knot";
               size_mm := 3; confidence := 5 # 10 |} in
  filter_overlapping_detections [d1; d2; d3] (3 # 10) = [d2; d3]
  /\ filter_overlapping_detections [d3; d1] (3 # 10) = [d3; d1].
Proof. split; reflexivity. Qed.

(** C7: running the overlap filter on its own output returns that output;
    no two detections of the output have an IoU above 0.3; and every
    detection of the output is one of the input. *)
Theorem suppression_idempotent (detections : list detection) :
  let kept := filter_overlapping_detections detections (3 # 10) in
  filter_overlapping_detections kept (3 # 10) = kept
  /\ (forall (i j : nat) (di dj : detection),
        i <> j -> kept !! i = Some di -> kept !! j = Some dj ->
        calculate_iou (bbox di) (bbox dj) <= 3 # 10)
  /\ (forall d, In d kept -> In d detections).
Proof.
  unfold filter_overlapping_detections.
  destruct (length detections <=? 1)%nat eqn:Elen.
  - cbv zeta. rewrite Elen. split; [reflexivity |]. split; [| auto].
    apply Nat.leb_le in Elen. intros i j di dj Hij Hi Hj.
    apply lookup_lt_Some in Hi, Hj. lia.
  - destruct (overlap_loop_selects (3 # 10) (sorted_by_confidence detections) [])
      as (out & Heq & Hg & Hin & Hs).
    cbn [app] in Heq. cbv zeta. rewrite Heq.
    specialize (Hs (sorted_by_confidence_sorted detections)).
    split; [| split].
    + destruct (length out <=? 1)%nat; [reflexivity |].
      rewrite (sorted_by_confidence_fixed out Hs).
      now rewrite (overlap_loop_greedy _ _ _ Hg).
    + assert (forall i j di dj, (i < j)%nat ->
                out !! i = Some di -> out !! j = Some dj ->
                Qgtb (calculate_iou (bbox dj) (bbox di)) (3 # 10) = false)
        as Hlater.
      { intros i j di dj Hij Hi Hj.
        apply (greedy_later_earlier (3 # 10) out [] (take j out)
                 (drop (S j) out) dj di Hg).
        - rewrite <- (take_drop_middle out j dj Hj) at 1. reflexivity.
        - cbn [app]. apply list_elem_of_In, list_elem_of_lookup. exists i.
          rewrite lookup_take_lt by exact Hij. exact Hi. }
      intros i j di dj Hij Hi Hj.
      destruct (Nat.lt_total i j) as [Hlt | [Heq' | Hgt]];
        [| contradiction |].
      * rewrite calculate_iou_sym. apply Qltb_ge.
        exact (Hlater i j di dj Hlt Hi Hj).
      * apply Qltb_ge. exact (Hlater j i dj di Hgt Hj Hi).
    + intros d Hd. apply sorted_In, Hin, Hd.
Qed.

End Suppression.

(* ================================================================== *)
(** * Further properties *)

(** ** The face grade is always a grade *)

Section FaceGradeRange.

Import Grader.

Variable W : Q.

(** The first passing grade is one of the five, or the failure marker. *)
Lemma first_grade_cases (f : string -> bool) :
  let s := hd "Fails G2-4" (List.filter f GRADES) in
  s = "G2-0" \/ s = "G2-1" \/ s = "G2-2" \/ s = "G2-3" \/ s = "G2-4"
  \/ (s = "Fails G2-4" /\ f "G2-4" = false).
Proof.
  unfold GRADES. cbn [List.filter].
  destruct (f "G2-0"); [cbn; tauto |].
  destruct (f "G2-1"); [cbn; tauto |].
  destruct (f "G2-2"); [cbn; tauto |].
  destruct (f "G2-3"); [cbn; tauto |].
  destruct (f "G2-4"); cbn; tauto.
Qed.

Lemma first_grade_best (f : string -> bool) :
  f "G2-0" = true -> hd "Fails G2-4" (List.filter f GRADES) = "G2-0".
Proof. intros H. unfold GRADES. cbn [List.filter]. now rewrite H. Qed.

Lemma surface_of_In (f : string -> bool) : In (surface_of f) GRADES.
Proof.
  unfold surface_of.
  destruct (first_grade_cases f) as [E | [E | [E | [E | [E | [E _]]]]]];
    rewrite E; cbn; tauto.
Qed.

(** X1: the grade of a surface is always one of the five grades: the call
    never raises and never returns the failure marker. *)
Theorem surface_grade_in_GRADES (measurements : list measurement) :
  exists g, determine_surface_grade W measurements = Ok g /\ In g GRADES.
Proof.
  destruct measurements as [| m ms].
  - exists "G2-0". split; [reflexivity | cbn; tauto].
  - rewrite determine_surface_grade_first. eexists. split; [reflexivity |].
    apply surface_of_In.
Qed.

Lemma number_ok_antitone (t t' p p' : Z) (g : string) :
  (t <= t')%Z -> (p <= p')%Z ->
  number_ok W t' p' g = true -> number_ok W t p g = true.
Proof.
  intros Ht Hp. unfold number_ok, number_grade_passed.
  destruct (dict_get KNOT_NUMBER_LIMITS g) as [[tl pl] |]; [| discriminate].
  destruct tl as [n |], pl as [m |]; cbn [exceeds negb];
    repeat match goal with
      | |- context [(?a <? ?b)%Z] => destruct (Z.ltb_spec a b)
      end; cbn; try reflexivity; try discriminate; lia.
Qed.

Lemma number_ok_last (t p : Z) : number_ok W t p "G2-4" = true.
Proof. reflexivity. Qed.

(** X2: the frequency check is upward closed: a grade that passes it is
    followed only by grades that pass it, and G2-4 always passes. *)
Theorem number_compliance_upward (knot_data_number : gmap string Z) :
  exists passed_grades,
    _check_number_compliance W knot_data_number = Ok passed_grades
    /\ In "G2-4" passed_grades
    /\ forall (g g' : string) (i j : nat),
         index g GRADES = Some i -> index g' GRADES = Some j ->
         (i <= j)%nat -> In g passed_grades -> In g' passed_grades.
Proof.
  unfold _check_number_compliance. rewrite number_grades_ok by auto.
  eexists. split; [reflexivity |].
  set (t := default 0%Z (knot_data_number !! "total")).
  set (p := default 0%Z (knot_data_number !! "unsound_only")).
  split; [apply filter_In; split; [cbn; tauto | apply number_ok_last] |].
  intros g g' i j Hi Hj Hij. rewrite !filter_In. intros [_ Hok].
  split; [exact (index_In _ _ _ Hj) |].
  pose proof (index_In _ _ _ Hi) as Hg. pose proof (index_In _ _ _ Hj) as Hg'.
  apply In_GRADES in Hg, Hg'.
  revert Hok. unfold number_ok, number_grade_passed, number_increase_factor.
  destruct (Qgtb W 225);
    destruct Hg as [-> | [-> | [-> | [-> | ->]]]];
    destruct Hg' as [-> | [-> | [-> | [-> | ->]]]];
    cbn in Hi, Hj; simplify_eq; try lia;
    cbn [dict_get KNOT_NUMBER_LIMITS String.eqb Ascii.eqb Bool.eqb exceeds negb];
    repeat match goal with
      | |- context [(?a <? ?b)%Z] => destruct (Z.ltb_spec a b)
      end; cbn; try reflexivity; try discriminate;
    repeat match goal with
      | H : context [int ?q] |- _ =>
          let v := eval vm_compute in (int q) in change (int q) with v in H
      end; lia.
Qed.

End FaceGradeRange.

(** ** Counting and the two-face grade *)

Section FaceData.

Import Grader.

Variable W : Q.

Ltac each_grade H :=
  apply In_GRADES in H; destruct H as [-> | [-> | [-> | [-> | ->]]]].
Ltac each_knot_type H :=
  apply In_KNOT_TYPES in H; destruct H as [-> | [-> | ->]].

Lemma inject_Z_nonneg (z : Z) : -(1 # 2) <= inject_Z z -> (0 <= z)%Z.
Proof.
  intros H. destruct (Z_le_gt_dec 0 z) as [Hz | Hz]; [exact Hz |].
  assert (z <= -1)%Z as Hz' by lia. rewrite Zle_Qle in Hz'.
  change (inject_Z (-1)) with (-1 # 1) in Hz'. lra.
Qed.

Lemma round_nonneg (x : Q) : 0 <= x -> (0 <= round x)%Z.
Proof.
  intros Hx. apply inject_Z_nonneg. pose proof (round_near x). lra.
Qed.

Ltac eval_limits :=
  repeat match goal with
    | |- context [percentOfWidth ?g ?k] =>
        let v := eval vm_compute in (percentOfWidth g k) in
        change (percentOfWidth g k) with v
    | |- context [constantMm ?g ?k] =>
        let v := eval vm_compute in (constantMm g k) in
        change (constantMm g k) with v
    | |- context [not_permitted ?g ?k] =>
        let v := eval vm_compute in (not_permitted g k) in
        change (not_permitted g k) with v
    end.

(** The allowed size of a grade and a category of the table. *)
Lemma allowed_formula (grade knot_type : string) :
  In grade GRADES -> In knot_type KNOT_TYPES ->
  allowed W grade knot_type
  = if not_permitted grade knot_type then 0%Z
    else round (size_formula W grade knot_type).
Proof.
  intros Hg Hk. each_grade Hg; each_knot_type Hk;
    unfold allowed, get_max_allowed_size, size_formula, size_increase_mm;
    destruct (Qgeb W 180); reflexivity.
Qed.

(** Allowed sizes are not negative when the width is not. *)
Lemma allowed_nonneg (grade knot_type : string) :
  0 <= W -> In grade GRADES -> In knot_type KNOT_TYPES ->
  (0 <= allowed W grade knot_type)%Z.
Proof.
  intros HW Hg Hk. rewrite allowed_formula by assumption.
  unfold size_formula.
  each_grade Hg; each_knot_type Hk; eval_limits; cbv iota; try lia;
    apply round_nonneg; unfold inject_Z; destruct (Qgeb W 180); lra.
Qed.

(** The G2-4 limit is the width, give or take the rounding. *)
Lemma allowed_last_grade (knot_type : string) :
  In knot_type KNOT_TYPES ->
  W - (1 # 2) <= inject_Z (allowed W "G2-4" knot_type).
Proof.
  intros Hk. rewrite allowed_formula by (cbn; tauto || assumption).
  unfold size_formula. each_knot_type Hk; eval_limits; cbv iota;
    match goal with
    | |- _ <= inject_Z (round ?x) => pose proof (round_near x) as [H _]
    end; change (inject_Z 0) with 0 in *; destruct (Qgeb W 180); lra.
Qed.

Lemma knot_type_of_In (defect_type : string) :
  In (knot_type_of defect_type) KNOT_TYPES.
Proof.
  unfold knot_type_of. repeat destruct (mem defect_type _); cbn; tauto.
Qed.

Lemma dict_get_set {V : Type} (d : dict V) (k0 k : string) (x : V) :
  dict_get (dict_set d k0 x) k
  = if String.eqb k k0 then Some x else dict_get d k.
Proof.
  induction d as [| [k' v'] d IH]; cbn [dict_set dict_get].
  - reflexivity.
  - destruct (String.eqb k0 k') eqn:E0; cbn [dict_get].
    + apply String.eqb_eq in E0. subst k'.
      now destruct (String.eqb k k0).
    + destruct (String.eqb k k') eqn:E; [| exact IH].
      apply String.eqb_eq in E. subst k'.
      assert (String.eqb k k0 = false) as ->; [| reflexivity].
      rewrite String.eqb_sym. exact E0.
Qed.

Lemma dict_set_keys {V : Type} (d : dict V) (k : string) (old x : V) :
  dict_get d k = Some old ->
  List.map fst (dict_set d k x) = List.map fst d.
Proof.
  induction d as [| [k' v'] d IH]; cbn [dict_get dict_set];
    [discriminate |].
  destruct (String.eqb k k'); cbn [List.map fst]; [reflexivity |].
  intros H. now rewrite IH.
Qed.

Lemma convert_snoc (ms : list measurement) (m : measurement) :
  convert_measurements_to_knot_data (ms ++ [m])
  = convert_step (convert_measurements_to_knot_data ms) m.
Proof. unfold convert_measurements_to_knot_data. now rewrite foldl_app. Qed.

(** X3: the knot data of a face counts every measurement once under
    ['total'] and every measurement of the unsound category once under
    ['unsound_only']; under each of the three categories it stores a size
    that is 0 or the size of a measurement of that category, is not
    negative, and that no measurement of the category exceeds. *)
Theorem knot_data_summary (measurements : list measurement) :
  let kd := convert_measurements_to_knot_data measurements in
  let unsound (m : measurement) :=
    String.eqb (knot_type_of m.1.1) "Unsound/Missing Knots" in
  kd.2 !! "total" = Some (Z.of_nat (length measurements))
  /\ kd.2 !! "unsound_only"
     = Some (Z.of_nat (length (List.filter unsound measurements)))
  /\ List.map fst kd.1 = KNOT_TYPES
  /\ forall k, In k KNOT_TYPES ->
       exists v, dict_get kd.1 k = Some v
         /\ (v = 0 \/ exists m, In m measurements
                        /\ knot_type_of m.1.1 = k /\ v = m.1.2)
         /\ 0 <= v
         /\ forall m, In m measurements -> knot_type_of m.1.1 = k ->
              m.1.2 <= v.
Proof.
  induction measurements as [| m ms IH] using rev_ind.
  - split; [reflexivity |]. split; [reflexivity |]. split; [reflexivity |].
    intros k Hk. exists 0. each_knot_type Hk;
      (split; [reflexivity |]); (split; [now left |]);
      (split; [lra | intros m []]).
  - cbv zeta in IH |- *. rewrite convert_snoc.
    destruct IH as (Ht & Hu & Hkeys & Hsize).
    destruct (convert_measurements_to_knot_data ms) as [d n].
    cbn [fst snd] in Ht, Hu, Hkeys, Hsize.
    destruct m as [[t s] p]. unfold convert_step. cbn [fst snd].
    rewrite List.filter_app, !length_app. cbn [List.filter fst length].
    destruct (Hsize _ (knot_type_of_In t)) as (old & Hold & Hatt & Hpos & Hmax).
    rewrite Hold. split; [| split; [| split]].
    + destruct (String.eqb (knot_type_of t) "Unsound/Missing Knots").
      * rewrite lookup_insert_ne by discriminate.
        rewrite lookup_insert_eq, Ht. cbn [default]. unfold id. f_equal. lia.
      * rewrite lookup_insert_eq, Ht. cbn [default]. unfold id. f_equal. lia.
    + destruct (String.eqb (knot_type_of t) "Unsound/Missing Knots").
      * rewrite lookup_insert_eq, lookup_insert_ne by discriminate.
        rewrite Hu. cbn [default length]. unfold id. f_equal. lia.
      * rewrite lookup_insert_ne by discriminate.
        rewrite Hu. cbn [length]. f_equal. lia.
    + rewrite <- Hkeys. eapply dict_set_keys, Hold.
    + intros k Hk. rewrite dict_get_set.
      destruct (String.eqb k (knot_type_of t)) eqn:Ek.
      * apply String.eqb_eq in Ek. subst k. exists (max old s).
        split; [reflexivity |]. split.
        -- unfold max. destruct (Qgtb s old).
           ++ right. exists (t, s, p). split; [apply in_app_iff; cbn; tauto |].
              split; reflexivity.
           ++ destruct Hatt as [-> | (m & Hm & Hc & ->)]; [now left |].
              right. exists m. split; [apply in_app_iff; tauto |]. now split.
        -- pose proof (max_le_l old s). pose proof (max_le_r old s).
           split; [lra |]. intros m Hm Hc.
           apply in_app_iff in Hm as [Hm | [<- | []]].
           ++ specialize (Hmax m Hm Hc). lra.
           ++ assumption.
      * apply String.eqb_neq in Ek.
        destruct (Hsize k Hk) as (v & Hv & Hatt' & Hpos' & Hmax').
        exists v. split; [exact Hv |]. split.
        -- destruct Hatt' as [-> | (m & Hm & Hc & ->)]; [now left |].
           right. exists m. split; [apply in_app_iff; tauto |]. now split.
        -- split; [exact Hpos' |]. intros m Hm Hc.
           apply in_app_iff in Hm as [Hm | [<- | []]].
           ++ now apply Hmax'.
           ++ cbn [fst] in Hc. congruence.
Qed.

End FaceData.

(** ** The worse of two faces *)

Section WorstFace.

Import Grader.

Variable W : Q.

(** Whether a grade passes both checks on the knot data of a face. *)
#[local] Abbreviation passes ms :=
  (fun g : string =>
     size_ok W g (convert_measurements_to_knot_data ms).1
     && number_ok W
          (default 0%Z ((convert_measurements_to_knot_data ms).2 !! "total"))
          (default 0%Z
             ((convert_measurements_to_knot_data ms).2 !! "unsound_only"))
          g).

Lemma empty_face_best : 0 <= W -> passes [] "G2-0" = true.
Proof.
  intros HW. apply andb_true_iff. split.
  - unfold size_ok. apply forallb_forall. intros [k v] Hin.
    cbn in Hin. cbn [fst snd].
    assert (In k KNOT_TYPES /\ v = 0) as [Hk ->]
      by (destruct Hin as [[= <- <-] | [[= <- <-] | [[= <- <-] | []]]];
          cbn; tauto).
    apply orb_true_iff. right. apply Qleb_le.
    change 0 with (inject_Z 0). rewrite <- Zle_Qle.
    apply allowed_nonneg; [exact HW | cbn; tauto | exact Hk].
  - unfold number_ok, number_grade_passed, number_increase_factor.
    destruct (Qgtb W 225); reflexivity.
Qed.

Lemma surface_via_first (ms : list measurement) :
  0 <= W -> determine_surface_grade W ms = Ok (surface_of (passes ms)).
Proof.
  intros HW. destruct ms as [| m ms].
  - unfold surface_of.
    rewrite (first_grade_best _ (empty_face_best HW)). reflexivity.
  - apply determine_surface_grade_first.
Qed.

Example ex_two_faces :
  determine_final_grade 115 [("Sound_Knot", 21, 0)] [("Unsound_Knot", 5, 0)]
  = Ok "G2-2"
  /\ determine_final_grade 115 [("Sound_Knot", 500, 0)] [] = Ok "G2-4"
  /\ determine_final_grade 100 [] [] = Ok "G2-0".
Proof. repeat split; vm_compute; reflexivity. Qed.

(** X4: for a width that is not negative, the final grade of a piece is the
    worse of the grades [determine_surface_grade] gives its two faces: the
    grade at the larger of their two indices. *)
Theorem final_grade_is_worst_face (top bottom : list measurement) :
  0 <= W ->
  exists (gt gb g : string) (it ib : nat),
    determine_surface_grade W top = Ok gt
    /\ determine_surface_grade W bottom = Ok gb
    /\ index gt GRADES = Some it /\ index gb GRADES = Some ib
    /\ determine_final_grade W top bottom = Ok g
    /\ GRADES !! Nat.max it ib = Some g.
Proof.
  intros HW. rewrite !surface_via_first by exact HW.
  unfold determine_final_grade, determine_final_grade_dual_face. cbv zeta.
  rewrite !single_face_grade_first, !bind_Ok. unfold surface_of.
  destruct (first_grade_cases (passes top))
    as [Et | [Et | [Et | [Et | [Et | [Et _]]]]]];
    destruct (first_grade_cases (passes bottom))
      as [Eb | [Eb | [Eb | [Eb | [Eb | [Eb _]]]]]];
    cbv zeta in Et, Eb; rewrite Et, Eb;
    do 5 eexists; repeat split; reflexivity.
Qed.

End WorstFace.

Lemma final_grade_is_worst_face_witness :
  exists (gt gb g : string) (it ib : nat),
    Grader.determine_surface_grade 115 [("Sound_Knot", 21, 0)] = Ok gt
    /\ Grader.determine_surface_grade 115 [("Unsound_Knot", 5, 0)] = Ok gb
    /\ index gt Grader.GRADES = Some it /\ index gb Grader.GRADES = Some ib
    /\ Grader.determine_final_grade 115 [("Sound_Knot", 21, 0)]
         [("Unsound_Knot", 5, 0)] = Ok g
    /\ Grader.GRADES !! Nat.max it ib = Some g.
Proof.
  apply final_grade_is_worst_face. discriminate.
Defined.

(** ** What makes a face better or worse *)

Section FaceOrder.

Import Grader.

Variable W : Q.

#[local] Abbreviation passes ms :=
  (fun g : string =>
     size_ok W g (convert_measurements_to_knot_data ms).1
     && number_ok W
          (default 0%Z ((convert_measurements_to_knot_data ms).2 !! "total"))
          (default 0%Z
             ((convert_measurements_to_knot_data ms).2 !! "unsound_only"))
          g).

(** One accumulator of the conversion loop is below another: sizes are
    pointwise no larger and so are the two counts. *)
#[local] Abbreviation acc_le a a' :=
  (dict_le (fst a) (fst a')
   /\ Z.le (default 0%Z (snd a !! "total")) (default 0%Z (snd a' !! "total"))
   /\ Z.le (default 0%Z (snd a !! "unsound_only"))
        (default 0%Z (snd a' !! "unsound_only"))).

Lemma surface_nonempty (ms : list measurement) :
  ms <> [] -> determine_surface_grade W ms = Ok (surface_of (passes ms)).
Proof.
  destruct ms as [| m ms]; [congruence |]. intros _.
  apply determine_surface_grade_first.
Qed.

Lemma In_index (g : string) :
  In g GRADES -> exists i, index g GRADES = Some i.
Proof.
  intros H. apply In_GRADES in H.
  destruct H as [-> | [-> | [-> | [-> | ->]]]]; eexists; reflexivity.
Qed.

Lemma size_ok_last (d : dict Q) :
  (forall k v, In (k, v) d -> v <= W - (1 # 2)) -> size_ok W "G2-4" d = true.
Proof.
  intros H. unfold size_ok. apply forallb_forall. intros [k v] Hin.
  cbn [fst snd]. destruct (mem k KNOT_TYPES) eqn:Ek; [| reflexivity].
  apply mem_In in Ek. cbn [negb orb]. apply Qleb_le.
  pose proof (allowed_last_grade W k Ek). specialize (H k v Hin). lra.
Qed.

(** X5: a face none of whose category sizes exceeds the wood width less
    half a millimetre gets one of the five grades, whatever its counts: the
    failure marker is not returned. *)
Theorem face_within_width_is_graded (knot_data_size : dict Q)
  (knot_data_number : gmap string Z) :
  (forall k v, In (k, v) knot_data_size -> v <= W - (1 # 2)) ->
  exists g,
    _determine_single_face_grade W knot_data_size knot_data_number = Ok g
    /\ In g GRADES.
Proof.
  intros H. rewrite single_face_grade_first. eexists. split; [reflexivity |].
  match goal with
  | |- In (hd _ (List.filter ?f GRADES)) _ =>
      destruct (first_grade_cases f) as [E | [E | [E | [E | [E | [_ E]]]]]]
  end; try (cbv zeta in E; rewrite E; cbn; tauto).
  rewrite (size_ok_last _ H), number_ok_last in E. discriminate E.
Qed.

Lemma knot_data_counts (ms : list measurement) :
  let kd := convert_measurements_to_knot_data ms in
  kd.2 !! "total" = Some (Z.of_nat (length ms))
  /\ kd.2 !! "unsound_only"
     = Some (Z.of_nat
               (length (List.filter
                          (fun m : measurement =>
                             String.eqb (knot_type_of m.1.1)
                               "Unsound/Missing Knots") ms))).
Proof.
  induction ms as [| m ms IH] using rev_ind; [split; reflexivity |].
  cbv zeta in IH |- *. rewrite convert_snoc. destruct IH as [Ht Hu].
  destruct (convert_measurements_to_knot_data ms) as [d n].
  cbn [snd] in Ht, Hu. destruct m as [[t s] p]. unfold convert_step.
  rewrite List.filter_app, !length_app. cbn [List.filter fst snd length].
  destruct (String.eqb (knot_type_of t) "Unsound/Missing Knots"); split;
    rewrite ?lookup_insert_eq, ?(lookup_insert_ne _ "unsound_only" "total"),
      ?(lookup_insert_ne _ "total" "unsound_only"), ?lookup_insert_eq
      by discriminate;
    rewrite ?Ht, ?Hu; cbn [default length]; unfold id; f_equal; lia.
Qed.

Lemma number_ok_unsound (t p : Z) :
  (1 <= p)%Z ->
  number_ok W t p "G2-0" = false /\ number_ok W t p "G2-1" = false.
Proof.
  intros Hp. unfold number_ok, number_grade_passed.
  cbn [dict_get KNOT_NUMBER_LIMITS String.eqb Ascii.eqb Bool.eqb exceeds].
  assert ((0 <? p)%Z = true) as -> by (apply Z.ltb_lt; lia).
  split; now destruct (negb _).
Qed.

(** X6: a face with at least one defect of the unsound category (unsound,
    missing, crack or an unknown type), whatever its size, is graded G2-2
    or worse. *)
Theorem unsound_knot_caps_grade (measurements : list measurement)
  (m : measurement) :
  In m measurements ->
  knot_type_of m.1.1 = "Unsound/Missing Knots" ->
  exists (g : string) (i : nat),
    determine_surface_grade W measurements = Ok g
    /\ index g GRADES = Some i /\ (2 <= i)%nat.
Proof.
  intros Hin Hcat.
  rewrite surface_nonempty by (intros ->; destruct Hin).
  destruct (knot_data_counts measurements) as [_ Hu]. rewrite Hu.
  cbn [default]. unfold id.
  match goal with
  | |- context [number_ok W ?t ?p] =>
      destruct (number_ok_unsound t p) as [H0 H1]
  end.
  { assert (In m (List.filter
                    (fun m : measurement =>
                       String.eqb (knot_type_of m.1.1) "Unsound/Missing Knots")
                    measurements)) as Hf
      by (apply filter_In; split; [exact Hin | now rewrite Hcat]).
    destruct (List.filter _ measurements); [destruct Hf | cbn [length]; lia]. }
  unfold surface_of, GRADES. cbn [List.filter].
  rewrite H0, H1, !andb_false_r.
  repeat match goal with
    | |- context [if ?b then _ :: _ else _] => destruct b
    end; cbn; eexists _, _; (split; [reflexivity |]); split;
    (reflexivity || lia).
Qed.

Lemma dict_le_set_ge (d : dict Q) (k : string) (old x : Q) :
  dict_get d k = Some old -> old <= x -> dict_le d (dict_set d k x).
Proof.
  intros Hget Hle. induction d as [| [k' v'] d IH];
    cbn [dict_get dict_set] in *; [discriminate |].
  destruct (String.eqb k k').
  - injection Hget as ->.
    constructor; [split; [reflexivity | exact Hle] | apply dict_le_refl].
  - constructor; [split; [reflexivity | apply Qle_refl] | now apply IH].
Qed.

Lemma convert_step_acc_mono (a a' : dict Q * gmap string Z)
  (m : measurement) :
  acc_le a a' -> acc_le (convert_step a m) (convert_step a' m).
Proof.
  destruct a as [d n], a' as [d' n'], m as [[t s] p]. cbn [fst snd].
  intros (Hd & Ht & Hu). unfold convert_step. cbn [fst snd].
  split; [| split].
  - pose proof (dict_le_get d d' (knot_type_of t) Hd) as Hget.
    destruct (dict_get d (knot_type_of t)) as [v |],
      (dict_get d' (knot_type_of t)) as [v' |]; try contradiction.
    + apply dict_le_set; [exact Hd | apply max_mono; [exact Hget | lra]].
    + exact Hd.
  - destruct (String.eqb (knot_type_of t) "Unsound/Missing Knots");
      rewrite ?(lookup_insert_ne _ "unsound_only" "total") by discriminate;
      rewrite !lookup_insert_eq;
      destruct (n !! "total"), (n' !! "total"); cbn in *; lia.
  - destruct (String.eqb (knot_type_of t) "Unsound/Missing Knots");
      rewrite ?lookup_insert_eq,
        ?(lookup_insert_ne _ "total" "unsound_only") by discriminate;
      destruct (n !! "unsound_only"), (n' !! "unsound_only"); cbn in *; lia.
Qed.

Lemma convert_step_acc_grow (a : dict Q * gmap string Z) (m : measurement) :
  acc_le a (convert_step a m).
Proof.
  destruct a as [d n], m as [[t s] p]. unfold convert_step. cbn [fst snd].
  split; [| split].
  - destruct (dict_get d (knot_type_of t)) as [old |] eqn:E.
    + eapply dict_le_set_ge; [exact E | apply max_le_l].
    + apply dict_le_refl.
  - destruct (String.eqb (knot_type_of t) "Unsound/Missing Knots");
      rewrite ?(lookup_insert_ne _ "unsound_only" "total") by discriminate;
      rewrite !lookup_insert_eq;
      destruct (n !! "total"); cbn in *; lia.
  - destruct (String.eqb (knot_type_of t) "Unsound/Missing Knots");
      rewrite ?lookup_insert_eq,
        ?(lookup_insert_ne _ "total" "unsound_only") by discriminate;
      destruct (n !! "unsound_only"); cbn in *; lia.
Qed.

Lemma convert_fold_acc_mono (ms : list measurement)
  (a a' : dict Q * gmap string Z) :
  acc_le a a' -> acc_le (foldl convert_step a ms) (foldl convert_step a' ms).
Proof.
  revert a a'. induction ms as [| m ms IH]; intros a a' H; [exact H |].
  cbn [foldl]. apply IH, convert_step_acc_mono, H.
Qed.

(** X7: one more defect on a face, anywhere in the list and of any type and
    size, never moves the face grade to a lower index of [GRADES]. *)
Theorem extra_defect_never_improves (ms1 ms2 : list measurement)
  (m : measurement) :
  exists (g g' : string) (a b : nat),
    determine_surface_grade W (ms1 ++ ms2) = Ok g
    /\ determine_surface_grade W (ms1 ++ m :: ms2) = Ok g'
    /\ index g GRADES = Some a /\ index g' GRADES = Some b /\ (a <= b)%nat.
Proof.
  assert (ms1 ++ m :: ms2 <> []) as Hne by (now destruct ms1).
  rewrite (surface_nonempty _ Hne).
  destruct (In_index _ (surface_of_In (passes (ms1 ++ m :: ms2))))
    as [b Hb].
  destruct (ms1 ++ ms2) as [| m0 ms0] eqn:E.
  - exists "G2-0", (surface_of (passes (ms1 ++ m :: ms2))), 0%nat, b.
    repeat split; try reflexivity; [exact Hb | lia].
  - rewrite <- E. rewrite surface_nonempty by (rewrite E; discriminate).
    destruct (surface_of_mono (passes (ms1 ++ ms2))
                (passes (ms1 ++ m :: ms2))) as (a & b' & Ha & Hb' & Hab);
      [| exists (surface_of (passes (ms1 ++ ms2))),
           (surface_of (passes (ms1 ++ m :: ms2))), a, b'; auto].
    intros g. unfold convert_measurements_to_knot_data.
    rewrite !foldl_app. cbn [foldl].
    match goal with
    | |- context [foldl convert_step (convert_step ?A m) ms2] =>
        destruct (convert_fold_acc_mono ms2 A (convert_step A m)
                    (convert_step_acc_grow A m)) as (Hd & Ht & Hu)
    end.
    rewrite !andb_true_iff. intros [Hs Hn]. split.
    + eapply size_ok_mono; [exact Hd | exact Hs].
    + eapply number_ok_antitone; [exact Ht | exact Hu | exact Hn].
Qed.

End FaceOrder.

Lemma face_within_width_is_graded_witness :
  exists g,
    Grader._determine_single_face_grade 40
      [("Sound Knots", 39); ("Dead Knots", 0); ("Unsound/Missing Knots", 0)]
      (<["unsound_only" := 0%Z]> {["total" := 1%Z]}) = Ok g
    /\ In g Grader.GRADES.
Proof.
  apply face_within_width_is_graded.
  intros k v [[= <- <-] | [[= <- <-] | [[= <- <-] | []]]]; discriminate.
Defined.

Lemma unsound_knot_caps_grade_witness :
  exists (g : string) (i : nat),
    Grader.determine_surface_grade 115
      [("Sound_Knot", 3, 0); ("hole", 0, 0)] = Ok g
    /\ index g Grader.GRADES = Some i /\ (2 <= i)%nat.
Proof.
  apply (unsound_knot_caps_grade 115 _ ("hole", 0, 0));
    [cbn; tauto | reflexivity].
Defined.

(** ** From the final grade to the sorting gate *)

Section Gate.

Import App.

Lemma index_hierarchy_lt (g : string) (i : nat) :
  index g Grader.GRADES = Some i -> (i < 5)%nat.
Proof. intros H. apply index_lt in H. exact H. Qed.

Lemma default_index_lt (s : string) :
  (default 0 (index s Grader.GRADES) < 5)%nat.
Proof.
  destruct (index s Grader.GRADES) as [i |] eqn:E; [| cbn; lia].
  apply index_hierarchy_lt in E. exact E.
Qed.

Lemma lookup_GRADES (i : nat) :
  (i < 5)%nat -> exists g, Grader.GRADES !! i = Some g /\ In g Grader.GRADES.
Proof.
  intros H. destruct i as [| [| [| [| [| i]]]]]; [| | | | | lia];
    eexists; (split; [reflexivity | cbn; tauto]).
Qed.

Example ex_gate_commands :
  List.map convert_grade_to_arduino_command
    ["G2-0"; "G2-1"; "G2-2"; "G2-3"; "G2-4"; "Fails G2-4"; ""]
  = [1; 2; 2; 3; 3; 3; 3]%Z.
Proof. reflexivity. Qed.

(** X8: the combination of two face grades never raises and returns a
    grade of the hierarchy.  It does not depend on the order of the faces;
    for two grades of the hierarchy it is the one at the larger index, so a
    grade combined with itself is unchanged. *)
Theorem final_grade_worst_of (top_grade bottom_grade : option string) :
  (exists g, determine_final_grade top_grade bottom_grade = Ok g
             /\ In g Grader.GRADES)
  /\ determine_final_grade top_grade bottom_grade
     = determine_final_grade bottom_grade top_grade
  /\ (forall a b i j,
        top_grade = Some a -> bottom_grade = Some b ->
        index a Grader.GRADES = Some i -> index b Grader.GRADES = Some j ->
        exists g, determine_final_grade top_grade bottom_grade = Ok g
                  /\ Grader.GRADES !! Nat.max i j = Some g
                  /\ (a = b -> g = a)).
Proof.
  unfold determine_final_grade. cbv zeta.
  change [GRADE_G2_0; GRADE_G2_1; GRADE_G2_2; GRADE_G2_3; GRADE_G2_4]
    with Grader.GRADES.
  set (ti := default 0%nat (index (default GRADE_G2_0 top_grade) Grader.GRADES)).
  set (bi := default 0%nat
               (index (default GRADE_G2_0 bottom_grade) Grader.GRADES)).
  assert (ti < 5)%nat as Hti by apply default_index_lt.
  assert (bi < 5)%nat as Hbi by apply default_index_lt.
  split; [| split].
  - destruct (lookup_GRADES (Nat.max ti bi)) as (g & Hg & Hin); [lia |].
    exists g. now rewrite Hg.
  - now rewrite (Nat.max_comm ti bi).
  - intros a b i j -> -> Hi Hj. subst ti bi. cbn [default]. unfold id.
    rewrite Hi, Hj. cbn [default]. unfold id.
    destruct (lookup_GRADES (Nat.max i j)) as (g & Hg & _).
    { apply index_hierarchy_lt in Hi, Hj. lia. }
    exists g. rewrite Hg. split; [reflexivity |]. split; [reflexivity |].
    intros <-. assert (j = i) as -> by congruence.
    rewrite Nat.max_id in Hg. clear Hj.
    pose proof (index_In _ _ _ Hi) as Ha. apply In_GRADES in Ha.
    destruct Ha as [-> | [-> | [-> | [-> | ->]]]];
      cbn in Hi; simplify_eq; cbn in Hg; congruence.
Qed.

Lemma final_grade_worst_of_witness :
  exists g, determine_final_grade (Some "G2-3") (Some "G2-1") = Ok g
            /\ Grader.GRADES !! Nat.max 3 1 = Some g
            /\ ("G2-3" = "G2-1" -> g = "G2-3").
Proof.
  destruct (final_grade_worst_of (Some "G2-3") (Some "G2-1")) as (_ & _ & H).
  apply (H "G2-3" "G2-1" 3%nat 1%nat); reflexivity.
Defined.

Lemma command_cases (s : string) :
  (In s Grader.GRADES \/ convert_grade_to_arduino_command s = 3%Z)
  /\ (1 <= convert_grade_to_arduino_command s <= 3)%Z.
Proof.
  unfold convert_grade_to_arduino_command.
  change (dict_of _) with
    [ ("G2-0", 1%Z); ("G2-1", 2%Z); ("G2-2", 2%Z); ("G2-3", 3%Z);
      ("G2-4", 3%Z) ].
  cbn [dict_get].
  repeat match goal with
    | |- context [String.eqb s ?k] =>
        let E := fresh "E" in
        destruct (String.eqb s k) eqn:E;
        [apply String.eqb_eq in E; subst s; cbn; split; [left; tauto | lia] |]
    end.
  cbn. split; [now right | lia].
Qed.

(** X9: the gate command is 1, 2 or 3, and 3 for anything that is not a
    grade of the hierarchy; a worse grade never gets a lower gate; and the
    gate of the combined grade of two faces is the larger of the gates of
    the two face grades. *)
Theorem gate_command_monotone :
  (forall s, (1 <= convert_grade_to_arduino_command s <= 3)%Z)
  /\ (forall s, ~ In s Grader.GRADES ->
        convert_grade_to_arduino_command s = 3%Z)
  /\ (forall g g' i j,
        index g Grader.GRADES = Some i -> index g' Grader.GRADES = Some j ->
        (i <= j)%nat ->
        (convert_grade_to_arduino_command g
         <= convert_grade_to_arduino_command g')%Z)
  /\ (forall a b, In a Grader.GRADES -> In b Grader.GRADES ->
        exists g, determine_final_grade (Some a) (Some b) = Ok g
          /\ convert_grade_to_arduino_command g
             = Z.max (convert_grade_to_arduino_command a)
                 (convert_grade_to_arduino_command b)).
Proof.
  split; [intros s; apply command_cases |].
  split; [intros s Hs; destruct (command_cases s) as [[H | H] _]; tauto |].
  split.
  - intros g g' i j Hi Hj Hij.
    pose proof (index_In _ _ _ Hi) as Hg. pose proof (index_In _ _ _ Hj) as Hg'.
    apply In_GRADES in Hg, Hg'.
    destruct Hg as [-> | [-> | [-> | [-> | ->]]]];
      destruct Hg' as [-> | [-> | [-> | [-> | ->]]]];
      cbn in Hi, Hj; simplify_eq; try lia; vm_compute; discriminate.
  - intros a b Ha Hb. apply In_GRADES in Ha, Hb.
    destruct Ha as [-> | [-> | [-> | [-> | ->]]]];
      destruct Hb as [-> | [-> | [-> | [-> | ->]]]];
      eexists; split; reflexivity.
Qed.

Lemma gate_command_monotone_witness :
  convert_grade_to_arduino_command "unknown" = 3%Z
  /\ (convert_grade_to_arduino_command "G2-1"
      <= convert_grade_to_arduino_command "G2-3")%Z.
Proof.
  destruct gate_command_monotone as (_ & H1 & H2 & _). split.
  - apply H1. cbn. intuition discriminate.
  - apply (H2 "G2-1" "G2-3" 1%nat 3%nat); [reflexivity | reflexivity | lia].
Defined.

(** X10: when a session has detections but none of them carries
    measurements, the grade from the session is G2-4 whatever the defect
    counts are: the lookup of the grade string in the number-keyed grade
    map always misses. *)
Theorem session_fallback_is_worst
  (determine_surface_grade : list Grader.measurement -> string -> string)
  (camera_name : string) (detections_list : list session_entry) :
  detections_list <> [] ->
  (forall d, In d detections_list -> default [] (measurements d) = []) ->
  determine_final_grade_from_session determine_surface_grade camera_name
    detections_list = "G2-4".
Proof.
  intros Hne Hnone. unfold determine_final_grade_from_session.
  destruct detections_list as [| d ds]; [congruence |].
  assert (List.concat
            (List.map (fun d => default [] (measurements d)) (d :: ds)) = [])
    as ->.
  { clear Hne. induction (d :: ds) as [| e l IH]; [reflexivity |].
    cbn [List.map List.concat]. rewrite (Hnone e) by now left.
    apply IH. intros x Hx. apply Hnone. now right. }
  reflexivity.
Qed.

Lemma session_fallback_is_worst_witness :
  determine_final_grade_from_session (fun _ _ => "G2-0") "top"
    [ {| measurements := None; defects := Some [] |} ] = "G2-4".
Proof.
  apply session_fallback_is_worst; [discriminate |].
  intros d [<- | []]. reflexivity.
Defined.

End Gate.

(** ** Sizes, letterboxing and located boxes *)

Section Measurement.

Import App.

Lemma Qdiv_nonneg (a b : Q) : 0 <= a -> 0 < b -> 0 <= a / b.
Proof.
  intros Ha Hb. apply Qle_shift_div_l; [exact Hb | lra].
Qed.

Lemma abs_nonneg (a : Q) : 0 <= abs a.
Proof. apply Qabs_nonneg. Qed.

(** The calibration factor the size is divided by: the global of the
    camera, or the built-in default when that is not positive. *)
Lemma effective_factor_pos (top bottom : Q) (camera_name : string) :
  0 < (let f := if String.eqb camera_name "top" then top else bottom in
       if Qleb f 0
       then (if String.eqb camera_name "top" then 296 # 100 else 35 # 10)
       else f).
Proof.
  cbv zeta. destruct (String.eqb camera_name "top");
    match goal with
    | |- context [Qleb ?f 0] => destruct (Qleb f 0) eqn:E
    end; try reflexivity; apply not_true_iff_false in E;
    rewrite Qleb_le in E; lra.
Qed.

Example ex_defect_size :
  calculate_defect_size (296 # 100) (35 # 10) 100 (10, 20, 50, 55) "bottom"
  = (35 / (35 # 10), 35 / (35 # 10) / 100 * 100)
  /\ (calculate_defect_size 0 0 0 (10, 55, 50, 20) "top").1 == 35 / (296 # 100).
Proof. split; reflexivity. Qed.

(** X11: the size of a defect is never negative and neither is its
    percentage; the percentage is 0 when the wood width is not positive; the
    size depends on the vertical extent of the box only, in either order of
    its two ends; and with a positive calibration factor the size times the
    factor gives back the vertical extent in pixels. *)
Theorem defect_size_properties (top bottom width x1 y1 x2 y2 : Q)
  (camera_name : string) :
  let r := calculate_defect_size top bottom width (x1, y1, x2, y2)
             camera_name in
  0 <= r.1 /\ 0 <= r.2
  /\ (width <= 0 -> r.2 = 0)
  /\ (forall x1' x2',
        calculate_defect_size top bottom width (x1', y1, x2', y2) camera_name
        = r)
  /\ (calculate_defect_size top bottom width (x1, y2, x2, y1) camera_name).1
     == r.1
  /\ (0 < top -> camera_name = "top" -> r.1 * top == abs (y2 - y1))
  /\ (0 < bottom -> camera_name <> "top" ->
      r.1 * bottom == abs (y2 - y1)).
Proof.
  cbv zeta. unfold calculate_defect_size. cbn [fst snd].
  pose proof (effective_factor_pos top bottom camera_name) as Hf.
  cbv zeta in Hf.
  set (f := if Qleb _ 0 then _ else _) in *.
  assert (0 <= abs (y2 - y1) / f) as Hs
    by (apply Qdiv_nonneg; [apply abs_nonneg | exact Hf]).
  split; [exact Hs |]. split; [| split; [| split; [| split; [| split]]]].
  - destruct (Qgtb width 0) eqn:E; [| lra].
    apply Qgtb_lt in E. pose proof (Qdiv_nonneg _ _ Hs E). lra.
  - intros Hw. destruct (Qgtb width 0) eqn:E; [| reflexivity].
    apply Qgtb_lt in E. lra.
  - reflexivity.
  - unfold abs. now rewrite (Qabs_Qminus y1 y2).
  - intros Ht ->. subst f. cbn [String.eqb Ascii.eqb Bool.eqb].
    change (("top" =? "top")%string) with true. cbv iota.
    assert (Qleb top 0 = false) as -> by (apply not_true_iff_false;
      rewrite Qleb_le; lra).
    field. lra.
  - intros Hb Hc. subst f. apply String.eqb_neq in Hc. rewrite Hc.
    assert (Qleb bottom 0 = false) as -> by (apply not_true_iff_false;
      rewrite Qleb_le; lra).
    field. lra.
Qed.

Lemma defect_size_properties_witness :
  (calculate_defect_size (296 # 100) (35 # 10) 0 (0, 10, 5, 80) "top").2 = 0
  /\ (calculate_defect_size (296 # 100) (35 # 10) 100 (0, 10, 5, 80)
        "bottom").1 * (35 # 10) == abs (80 - 10).
Proof.
  split.
  - destruct (defect_size_properties (296 # 100) (35 # 10) 0 0 10 5 80 "top")
      as (_ & _ & H & _).
    apply H. discriminate.
  - destruct (defect_size_properties (296 # 100) (35 # 10) 100 0 10 5 80
                "bottom") as (_ & _ & _ & _ & _ & _ & H).
    apply H; [reflexivity | discriminate].
Defined.

Lemma int_bounds (q : Q) (n : Z) :
  0 <= q -> q <= inject_Z n -> (0 <= int q <= n)%Z.
Proof.
  intros H0 Hn. unfold int.
  assert (Qltb q 0 = false) as -> by (apply Qltb_ge; exact H0).
  split.
  - change 0%Z with (Qfloor 0). now apply Qfloor_resp_le.
  - rewrite <- (Qfloor_Z n). now apply Qfloor_resp_le.
Qed.

Lemma scaled_side_bounds (side longest : Z) :
  (0 <= side <= longest)%Z -> (0 < longest)%Z ->
  0 <= inject_Z side * (inject_Z 640 / inject_Z longest)
  /\ inject_Z side * (inject_Z 640 / inject_Z longest) <= inject_Z 640.
Proof.
  intros [Hs0 Hsl] Hl.
  assert (0 <= inject_Z side) as H1
    by (change 0 with (inject_Z 0); now rewrite <- Zle_Qle).
  assert (inject_Z side <= inject_Z longest) as H2 by now rewrite <- Zle_Qle.
  assert (0 < inject_Z longest) as H3
    by (change 0 with (inject_Z 0); now rewrite <- Zlt_Qlt).
  change (inject_Z 640) with 640.
  assert (inject_Z side * (640 / inject_Z longest)
          == inject_Z side * 640 / inject_Z longest) as ->
    by (field; lra).
  split.
  - apply Qdiv_nonneg; [nra | exact H3].
  - apply Qle_shift_div_r; [exact H3 | nra].
Qed.

Example ex_resize :
  resize_to_640 720 1280 = Ok (640 / 1280, 640%Z, 360%Z, 0%Z, 140%Z)
  /\ resize_to_640 0 0 = Raise ZeroDivisionError.
Proof. split; reflexivity. Qed.

(** X12: for a frame with sides that are not negative and not both zero,
    the resized image fits the 640 by 640 canvas: its sides are between 0
    and 640, the paddings are not negative, the image placed at the padding
    ends inside the canvas, and it is centred up to one pixel.  A frame
    with both sides zero raises a division by zero. *)
Theorem resize_fits_canvas (h w : Z) :
  (0 <= h)%Z -> (0 <= w)%Z ->
  ((0 < Z.max h w)%Z ->
   exists scale new_w new_h pad_x pad_y,
     resize_to_640 h w = Ok (scale, new_w, new_h, pad_x, pad_y)
     /\ 0 < scale
     /\ (0 <= new_w <= 640 /\ 0 <= new_h <= 640)%Z
     /\ (0 <= pad_x /\ 0 <= pad_y)%Z
     /\ (pad_x + new_w <= 640 /\ pad_y + new_h <= 640)%Z
     /\ (0 <= 640 - new_w - 2 * pad_x <= 1)%Z
     /\ (0 <= 640 - new_h - 2 * pad_y <= 1)%Z)
  /\ (Z.max h w = 0%Z -> resize_to_640 h w = Raise ZeroDivisionError).
Proof.
  intros Hh Hw. unfold resize_to_640, py_div. cbv zeta. split.
  - intros Hmax.
    assert (Qeqb (inject_Z (Z.max h w)) 0 = false) as ->.
    { apply not_true_iff_false. rewrite Qeqb_eq.
      change 0 with (inject_Z 0). rewrite inject_Z_injective. lia. }
    rewrite bind_Ok.
    destruct (scaled_side_bounds w (Z.max h w)) as [Hw0 Hw1]; [lia | lia |].
    destruct (scaled_side_bounds h (Z.max h w)) as [Hh0 Hh1]; [lia | lia |].
    pose proof (int_bounds _ 640 Hw0 Hw1) as Bw.
    pose proof (int_bounds _ 640 Hh0 Hh1) as Bh.
    set (nw := int (inject_Z w * (inject_Z 640 / inject_Z (Z.max h w)))) in *.
    set (nh := int (inject_Z h * (inject_Z 640 / inject_Z (Z.max h w)))) in *.
    do 5 eexists. split; [reflexivity |].
    split.
    { apply Qlt_shift_div_l.
      - change 0 with (inject_Z 0). now rewrite <- Zlt_Qlt.
      - rewrite Qmult_0_l. reflexivity. }
    pose proof (Z.div_mod (640 - nw) 2 ltac:(lia)) as Dw.
    pose proof (Z.mod_pos_bound (640 - nw) 2 ltac:(lia)) as Mw.
    pose proof (Z.div_mod (640 - nh) 2 ltac:(lia)) as Dh.
    pose proof (Z.mod_pos_bound (640 - nh) 2 ltac:(lia)) as Mh.
    repeat split; lia.
  - intros Hmax. rewrite Hmax. reflexivity.
Qed.

Lemma resize_fits_canvas_witness :
  exists scale new_w new_h pad_x pad_y,
    resize_to_640 720 1280 = Ok (scale, new_w, new_h, pad_x, pad_y)
    /\ 0 < scale
    /\ (0 <= new_w <= 640 /\ 0 <= new_h <= 640)%Z
    /\ (0 <= pad_x /\ 0 <= pad_y)%Z
    /\ (pad_x + new_w <= 640 /\ pad_y + new_h <= 640)%Z
    /\ (0 <= 640 - new_w - 2 * pad_x <= 1)%Z
    /\ (0 <= 640 - new_h - 2 * pad_y <= 1)%Z.
Proof.
  destruct (resize_fits_canvas 720 1280) as [H _]; [lia | lia |].
  apply H. reflexivity.
Defined.

End Measurement.

(** ** Located boxes *)

Section Located.

Import App.

Variables (scale pad_x pad_y original_w original_h : Q).
Variable dynamic_wood_roi : option (Q * Q * Q * Q).
Variable label_of : string -> string.
Variable size_of : box -> Q.

Lemma clip_bounds (v limit : Q) :
  0 <= max 0 (min v limit)
  /\ (0 < max 0 (min v limit) -> max 0 (min v limit) <= limit).
Proof.
  unfold max, min.
  destruct (Qltb limit v) eqn:E1;
    match goal with
    | |- context [Qgtb ?a 0] => destruct (Qgtb a 0) eqn:E2
    end;
    try apply Qltb_lt in E1; try apply Qltb_ge in E1;
    try apply Qgtb_lt in E2; try apply Qltb_ge in E2; split; lra.
Qed.

Lemma clip_inside (v x limit : Q) :
  v == x -> 0 <= x -> x <= limit -> max 0 (min v limit) == x.
Proof.
  intros Hv H0 Hl. unfold max, min.
  destruct (Qltb limit v) eqn:E1;
    match goal with
    | |- context [Qgtb ?a 0] => destruct (Qgtb a 0) eqn:E2
    end;
    try apply Qltb_lt in E1; try apply Qltb_ge in E1;
    try apply Qgtb_lt in E2; try apply Qltb_ge in E2; lra.
Qed.

Example ex_locate :
  locate_detection (1 # 2) 0 140 1280 720 (Some (100, 100, 400, 300))
    (fun s => s) (fun _ => 0)
    {| label := "knot"; raw_bbox := (100, 240, 150, 280);
       raw_confidence := Some (9 # 10) |}
  = Some {| bbox := (max 0 (min ((100 - 0) / (1 # 2)) 1280),
                     max 0 (min ((240 - 140) / (1 # 2)) 720),
                     max 0 (min ((150 - 0) / (1 # 2)) 1280),
                     max 0 (min ((280 - 140) / (1 # 2)) 720));
            defect_type := "knot"; size_mm := 0; confidence := 9 # 10 |}
  /\ locate_detection (1 # 2) 0 140 1280 720 None (fun s => s) (fun _ => 0)
       {| label := "knot"; raw_bbox := (100, 20, 150, 130);
          raw_confidence := Some (9 # 10) |} = None.
Proof. split; reflexivity. Qed.

(** X13: every detection that leaves the loop of the frame analysis has a
    box inside the frame, with its left edge strictly left of its right edge
    and its top strictly above its bottom, and that box passes the ROI gate;
    the loop returns no more detections than it was given. *)
Theorem located_boxes_in_frame (results : list raw_detection) :
  (length (current_detections scale pad_x pad_y original_w original_h
             dynamic_wood_roi label_of size_of results)
   <= length results)%nat
  /\ forall d,
       In d (current_detections scale pad_x pad_y original_w original_h
               dynamic_wood_roi label_of size_of results) ->
       let '(x1, y1, x2, y2) := bbox d in
       0 <= x1 /\ x1 < x2 /\ x2 <= original_w
       /\ 0 <= y1 /\ y1 < y2 /\ y2 <= original_h
       /\ bbox_inside_roi [x1; y1; x2; y2] dynamic_wood_roi (7 # 10) = true.
Proof.
  split.
  - unfold current_detections.
    induction results as [| det results IH]; [reflexivity |].
    cbn [omap list_omap length].
    destruct (analyze_detection _ _ _ _ _ _ _ _ det); cbn [length]; lia.
  - intros d Hin. unfold current_detections in Hin.
    apply list_elem_of_In, list_elem_of_omap in Hin as (det & _ & Hloc).
    unfold analyze_detection in Hloc.
    destruct (confidence_gate det); [| discriminate Hloc].
    unfold locate_detection in Hloc.
    destruct (raw_bbox det) as [[[b0 b1] b2] b3].
    set (x1 := max 0 (min ((b0 - pad_x) / scale) original_w)) in *.
    set (y1 := max 0 (min ((b1 - pad_y) / scale) original_h)) in *.
    set (x2 := max 0 (min ((b2 - pad_x) / scale) original_w)) in *.
    set (y2 := max 0 (min ((b3 - pad_y) / scale) original_h)) in *.
    destruct (Qleb x2 x1 || Qleb y2 y1) eqn:Epad; [discriminate Hloc |].
    destruct (bbox_inside_roi [x1; y1; x2; y2] dynamic_wood_roi (7 # 10))
      eqn:Eroi; [| discriminate Hloc].
    cbn [negb] in Hloc. injection Hloc as <-. cbn [bbox].
    apply orb_false_iff in Epad as [Ex Ey].
    apply not_true_iff_false in Ex, Ey. rewrite Qleb_le in Ex, Ey.
    destruct (clip_bounds ((b0 - pad_x) / scale) original_w) as [Hx1 _].
    destruct (clip_bounds ((b1 - pad_y) / scale) original_h) as [Hy1 _].
    destruct (clip_bounds ((b2 - pad_x) / scale) original_w) as [_ Hx2].
    destruct (clip_bounds ((b3 - pad_y) / scale) original_h) as [_ Hy2].
    fold x1 in Hx1. fold y1 in Hy1. fold x2 in Hx2. fold y2 in Hy2.
    repeat split;
      first [assumption | reflexivity | lra | apply Hx2; lra | apply Hy2; lra].
Qed.

End Located.

Lemma located_boxes_in_frame_witness :
  0 <= 200 /\ 200 < 300 /\ 300 <= 1280 /\ 0 <= 200 /\ 200 < 280 /\ 280 <= 720
  /\ App.bbox_inside_roi [200; 200; 300; 280] (Some (100, 100, 400, 300))
       (7 # 10) = true.
Proof.
  pose (det := {| App.label := "knot"; App.raw_bbox := (100, 240, 150, 280);
                  App.raw_confidence := Some (9 # 10) |}).
  pose (d := {| App.bbox := (200, 200, 300, 280); App.defect_type := "knot";
                App.size_mm := 0; App.confidence := 9 # 10 |}).
  destruct (located_boxes_in_frame (1 # 2) 0 140 1280 720
              (Some (100, 100, 400, 300)) (fun s => s) (fun _ => 0) [det])
    as [_ H].
  apply (H d). left. reflexivity.
Defined.

Section RoundTrip.

Import App.

Lemma unscale (x s p : Q) : 0 < s -> (x * s + p - p) / s == x.
Proof. intros Hs. field. lra. Qed.

(** X14: removing the letterbox undoes it.  A box inside the frame, scaled
    by a positive factor and shifted by the padding, comes back from the
    coordinate correction as the same box (no clipping takes place), and,
    with no dynamic ROI, the detection is kept with its confidence. *)
Theorem letterbox_round_trip
  (scale pad_x pad_y original_w original_h x1 y1 x2 y2 : Q)
  (label_of : string -> string) (size_of : box -> Q) (det : raw_detection) :
  0 < scale ->
  0 <= x1 -> x1 < x2 -> x2 <= original_w ->
  0 <= y1 -> y1 < y2 -> y2 <= original_h ->
  raw_bbox det = (x1 * scale + pad_x, y1 * scale + pad_y,
                  x2 * scale + pad_x, y2 * scale + pad_y) ->
  exists d,
    locate_detection scale pad_x pad_y original_w original_h None
      label_of size_of det = Some d
    /\ (let '(a, b, c, e) := bbox d in
        a == x1 /\ b == y1 /\ c == x2 /\ e == y2)
    /\ confidence d = confidence_of det
    /\ defect_type d = label_of (label det).
Proof.
  intros Hs Hx1 Hx Hx2 Hy1 Hy Hy2 Hraw. unfold locate_detection.
  rewrite Hraw.
  set (a := max 0 (min ((x1 * scale + pad_x - pad_x) / scale) original_w)).
  set (b := max 0 (min ((y1 * scale + pad_y - pad_y) / scale) original_h)).
  set (c := max 0 (min ((x2 * scale + pad_x - pad_x) / scale) original_w)).
  set (e := max 0 (min ((y2 * scale + pad_y - pad_y) / scale) original_h)).
  assert (a == x1) as Ha by (apply clip_inside; [now apply unscale | lra | lra]).
  assert (b == y1) as Hb by (apply clip_inside; [now apply unscale | lra | lra]).
  assert (c == x2) as Hc by (apply clip_inside; [now apply unscale | lra | lra]).
  assert (e == y2) as He by (apply clip_inside; [now apply unscale | lra | lra]).
  assert (Qleb c a = false) as ->
    by (apply not_true_iff_false; rewrite Qleb_le; lra).
  assert (Qleb e b = false) as ->
    by (apply not_true_iff_false; rewrite Qleb_le; lra).
  cbn [orb bbox_inside_roi negb]. eexists. split; [reflexivity |].
  cbn [bbox confidence defect_type]. auto.
Qed.

Lemma letterbox_round_trip_witness :
  exists d,
    locate_detection (1 # 2) 0 140 1280 720 None (fun s => s) (fun _ => 0)
      {| label := "knot";
         raw_bbox := (200 * (1 # 2) + 0, 200 * (1 # 2) + 140,
                      300 * (1 # 2) + 0, 280 * (1 # 2) + 140);
         raw_confidence := Some (9 # 10) |} = Some d
    /\ (let '(a, b, c, e) := bbox d in
        a == 200 /\ b == 200 /\ c == 300 /\ e == 280)
    /\ confidence d = 9 # 10
    /\ defect_type d = "knot".
Proof.
  apply (letterbox_round_trip (1 # 2) 0 140 1280 720 200 200 300 280);
    reflexivity || discriminate.
Defined.

End RoundTrip.

(** ** Intersection over union *)

Section IoU.

Import App Geometry.

Lemma min_le_l (a b : Q) : min a b <= a.
Proof.
  unfold min. destruct (Qltb b a) eqn:E; [apply Qltb_lt in E; lra | lra].
Qed.

Lemma min_le_r (a b : Q) : min a b <= b.
Proof.
  unfold min. destruct (Qltb b a) eqn:E; [lra | apply Qltb_ge in E; lra].
Qed.

Lemma product_le (w h w' h' : Q) :
  0 < w -> 0 < h -> w <= w' -> h <= h' -> w * h <= w' * h'.
Proof. intros. nra. Qed.

Example ex_iou :
  calculate_iou (0, 0, 10, 10) (5, 0, 15, 10) == 1 # 3
  /\ calculate_iou (0, 0, 10, 10) (10, 0, 20, 10) == 0
  /\ calculate_iou (0, 0, 10, 10) (2, 2, 4, 4) == 4 # 100.
Proof. repeat split; reflexivity. Qed.

(** The bounds of the IoU, and when it vanishes. *)
Lemma iou_bounds (a b c d e f g h : Q) :
  0 <= calculate_iou (a, b, c, d) (e, f, g, h)
  /\ calculate_iou (a, b, c, d) (e, f, g, h) <= 1
  /\ (calculate_iou (a, b, c, d) (e, f, g, h) == 0
      <-> intersection_area (a, b, c, d) (e, f, g, h) == 0).
Proof.
  revert a b c d e f g h.
  intros x1 y1 x2 y2 u1 v1 u2 v2. unfold calculate_iou.
  destruct (Qleb (min x2 u2) (max x1 u1) || Qleb (min y2 v2) (max y1 v1))
    eqn:E.
  - rewrite (intersection_area_empty _ _ _ _ _ _ _ _ E).
    split; [lra |]. split; [lra | tauto].
  - rewrite <- (intersection_area_code _ _ _ _ _ _ _ _ E).
    apply orb_false_iff in E as [Ex Ey].
    apply not_true_iff_false in Ex, Ey. rewrite Qleb_le in Ex, Ey.
    pose proof (min_le_l x2 u2). pose proof (min_le_r x2 u2).
    pose proof (max_le_l x1 u1). pose proof (max_le_r x1 u1).
    pose proof (min_le_l y2 v2). pose proof (min_le_r y2 v2).
    pose proof (max_le_l y1 v1). pose proof (max_le_r y1 v1).
    set (w := min x2 u2 - max x1 u1) in *.
    set (h := min y2 v2 - max y1 v1) in *.
    assert (0 < w) as Hw by (subst w; lra).
    assert (0 < h) as Hh by (subst h; lra).
    assert (0 < w * h) as Hi by nra.
    assert (w * h <= (x2 - x1) * (y2 - y1)) as Hle1
      by (apply product_le; subst w h; lra).
    assert (w * h <= (u2 - u1) * (v2 - v1)) as Hle2
      by (apply product_le; subst w h; lra).
    set (i := w * h) in *. set (a1 := (x2 - x1) * (y2 - y1)) in *.
    set (a2 := (u2 - u1) * (v2 - v1)) in *.
    assert (0 < a1 + a2 - i) as Hu by lra.
    assert (Qgtb (a1 + a2 - i) 0 = true) as -> by now apply Qgtb_lt.
    assert (0 < i / (a1 + a2 - i)) as Hpos
      by (apply Qlt_shift_div_l; [exact Hu | lra]).
    split; [lra |].
    split; [apply Qle_shift_div_r; [exact Hu | lra] |].
    split; intros Hz; lra.
Qed.

(** X15: the IoU of any two boxes lies between 0 and 1; it is 0 exactly
    when the boxes share no area; and the IoU of a box of positive width
    and height with itself is 1. *)
Theorem iou_range (box1 box2 : box) :
  0 <= calculate_iou box1 box2 /\ calculate_iou box1 box2 <= 1
  /\ (calculate_iou box1 box2 == 0 <-> intersection_area box1 box2 == 0)
  /\ (let '(x1, y1, x2, y2) := box1 in
      x1 < x2 -> y1 < y2 -> calculate_iou box1 box1 == 1).
Proof.
  destruct box1 as [[[x1 y1] x2] y2], box2 as [[[u1 v1] u2] v2].
  destruct (iou_bounds x1 y1 x2 y2 u1 v1 u2 v2) as (H0 & H1 & Hiff).
  split; [exact H0 |]. split; [exact H1 |]. split; [exact Hiff |].
  intros Hx Hy. unfold calculate_iou.
  assert (max x1 x1 = x1) as -> by (unfold max; now destruct (Qgtb x1 x1)).
  assert (max y1 y1 = y1) as -> by (unfold max; now destruct (Qgtb y1 y1)).
  assert (min x2 x2 = x2) as -> by (unfold min; now destruct (Qltb x2 x2)).
  assert (min y2 y2 = y2) as -> by (unfold min; now destruct (Qltb y2 y2)).
  assert (Qleb x2 x1 = false) as ->
    by (apply not_true_iff_false; rewrite Qleb_le; lra).
  assert (Qleb y2 y1 = false) as ->
    by (apply not_true_iff_false; rewrite Qleb_le; lra).
  cbn [orb]. assert (0 < (x2 - x1) * (y2 - y1)) as Ha by nra.
  set (a := (x2 - x1) * (y2 - y1)) in *.
  assert (Qgtb (a + a - a) 0 = true) as -> by (apply Qgtb_lt; lra).
  field. lra.
Qed.

Lemma iou_range_witness : calculate_iou (0, 0, 4, 2) (0, 0, 4, 2) == 1.
Proof.
  destruct (iou_range (0, 0, 4, 2) (0, 0, 4, 2)) as (_ & _ & _ & H).
  apply H; reflexivity.
Defined.

(** X16: the deduplicator's IoU of two sequences of four numbers is the
    IoU the overlap filter computes for the same boxes, and it is 0 when
    either sequence does not have four numbers. *)
Theorem dedup_iou_agrees (bbox1 bbox2 : list Q) :
  (forall a b c d e f g h,
     bbox1 = [a; b; c; d] -> bbox2 = [e; f; g; h] ->
     Dedup._calculate_bbox_iou bbox1 bbox2
     = calculate_iou (a, b, c, d) (e, f, g, h))
  /\ (length bbox1 <> 4%nat \/ length bbox2 <> 4%nat ->
      Dedup._calculate_bbox_iou bbox1 bbox2 = 0)
  /\ 0 <= Dedup._calculate_bbox_iou bbox1 bbox2 <= 1.
Proof.
  assert (length bbox1 <> 4%nat \/ length bbox2 <> 4%nat ->
          Dedup._calculate_bbox_iou bbox1 bbox2 = 0) as Hbad.
  { intros H. unfold Dedup._calculate_bbox_iou.
    destruct bbox1 as [| a [| b [| c [| d [| ? ?]]]]]; try reflexivity;
      destruct bbox2 as [| e [| f [| g [| h [| ? ?]]]]]; try reflexivity.
    cbn in H. lia. }
  split; [intros a b c d e f g h -> ->; reflexivity |].
  split; [exact Hbad |].
  destruct bbox1 as [| a [| b [| c [| d [| ? ?]]]]];
    try (rewrite Hbad by (cbn; lia); lra);
    destruct bbox2 as [| e [| f [| g [| h [| ? ?]]]]];
    try (rewrite Hbad by (cbn; lia); lra).
  destruct (iou_bounds a b c d e f g h) as (H0 & H1 & _).
  split; assumption.
Qed.

Lemma dedup_iou_agrees_witness :
  Dedup._calculate_bbox_iou [0; 0; 10; 10] [5; 0; 15; 10]
  = calculate_iou (0, 0, 10, 10) (5, 0, 15, 10)
  /\ Dedup._calculate_bbox_iou [0; 0; 10] [5; 0; 15; 10] = 0.
Proof.
  destruct (dedup_iou_agrees [0; 0; 10; 10] [5; 0; 15; 10]) as (H & _).
  destruct (dedup_iou_agrees [0; 0; 10] [5; 0; 15; 10]) as (_ & H' & _).
  split; [now apply H | apply H'; left; cbn; lia].
Defined.

End IoU.

(** ** What the overlap filter keeps and drops *)

Section Kept.

Import App.

Lemma overlap_loop_keeps (t : Q) (l kept : list detection) (k : detection) :
  In k kept -> In k (overlap_loop t l kept).
Proof.
  intros Hk. destruct (overlap_loop_selects t l kept) as (out & -> & _).
  apply in_app_iff. now left.
Qed.

(** Every detection the loop passes over is kept, or overlaps a kept one
    that is at least as confident. *)
Lemma overlap_loop_complete (t : Q) (l : list detection) :
  StronglySorted by_confidence l ->
  forall kept,
    (forall k x, In k kept -> In x l -> confidence x <= confidence k) ->
    forall d, In d l ->
      In d (overlap_loop t l kept)
      \/ exists k, In k (overlap_loop t l kept)
           /\ confidence d <= confidence k
           /\ t < calculate_iou (bbox d) (bbox k).
Proof.
  induction 1 as [| d0 l Hl IH Hall]; intros kept Hkept d Hd; [destruct Hd |].
  cbn [overlap_loop].
  assert (forall k x, In k kept -> In x l -> confidence x <= confidence k)
    as Hkept' by (intros k x Hk Hx; apply Hkept; [exact Hk | now right]).
  destruct (is_overlapping t d0 kept) eqn:Eov.
  - destruct Hd as [<- | Hd]; [| now apply IH].
    right. unfold is_overlapping in Eov.
    apply existsb_exists in Eov as (s & Hs & Hiou). apply Qgtb_lt in Hiou.
    exists s. split; [now apply overlap_loop_keeps |].
    split; [apply Hkept; [exact Hs | now left] | exact Hiou].
  - destruct Hd as [<- | Hd].
    + left. apply overlap_loop_keeps, in_app_iff. right. now left.
    + apply IH; [| exact Hd]. intros k x Hk Hx.
      apply in_app_iff in Hk as [Hk | [<- | []]]; [now apply Hkept' |].
      rewrite Forall_forall in Hall.
      apply (Hall x), list_elem_of_In, Hx.
Qed.

(** X17: the overlap filter drops a detection only when it overlaps, with
    an IoU above 0.3, a detection that is kept and is at least as
    confident. *)
Theorem dropped_only_if_overlapping (detections : list detection)
  (d : detection) :
  In d detections ->
  In d (filter_overlapping_detections detections (3 # 10))
  \/ exists k,
       In k (filter_overlapping_detections detections (3 # 10))
       /\ confidence d <= confidence k
       /\ 3 # 10 < calculate_iou (bbox d) (bbox k).
Proof.
  intros Hd. unfold filter_overlapping_detections.
  destruct (length detections <=? 1)%nat; [now left |].
  apply overlap_loop_complete.
  - apply sorted_by_confidence_sorted.
  - intros k x [].
  - now apply sorted_In.
Qed.

Lemma dropped_only_if_overlapping_witness :
  let d1 := {| bbox := (0, 0, 10, 10); defect_type := "Dead_Knot";
               size_mm := 3; confidence := 5 # 10 |} in
  let d2 := {| bbox := (1, 0, 11, 10); defect_type := "Sound_Knot";
               size_mm := 3; confidence := 9 # 10 |} in
  In d1 (filter_overlapping_detections [d1; d2] (3 # 10))
  \/ exists k,
       In k (filter_overlapping_detections [d1; d2] (3 # 10))
       /\ confidence d1 <= confidence k
       /\ 3 # 10 < calculate_iou (bbox d1) (bbox k).
Proof.
  intros d1 d2. apply dropped_only_if_overlapping. now left.
Defined.

Lemma sorted_head_max (l : list detection) (h : detection)
  (rest : list detection) :
  sorted_by_confidence l = h :: rest ->
  forall d, In d l -> confidence d <= confidence h.
Proof.
  intros E d Hd. pose proof (sorted_by_confidence_sorted l) as Hs.
  rewrite E in Hs. apply sorted_In in Hd. rewrite E in Hd.
  destruct Hd as [<- | Hd]; [apply Qle_refl |].
  inversion Hs as [| ? ? _ Hall]; subst. rewrite Forall_forall in Hall.
  apply (Hall d), list_elem_of_In, Hd.
Qed.

(** X18: on a non-empty input the overlap filter keeps a detection of the
    highest confidence and returns it first; on more than one detection
    its output is in descending order of confidence. *)
Theorem best_detection_kept (detections : list detection) :
  detections <> [] ->
  (exists h rest,
     filter_overlapping_detections detections (3 # 10) = h :: rest
     /\ In h detections
     /\ forall d, In d detections -> confidence d <= confidence h)
  /\ ((1 < length detections)%nat ->
      StronglySorted by_confidence
        (filter_overlapping_detections detections (3 # 10))).
Proof.
  intros Hne. unfold filter_overlapping_detections.
  destruct detections as [| d0 [| d1 ds]]; [congruence | |].
  - cbn [length Nat.leb]. split; [| cbn; lia].
    exists d0, []. split; [reflexivity |]. split; [now left |].
    intros d [<- | []]. apply Qle_refl.
  - set (l := d0 :: d1 :: ds). cbn [length Nat.leb].
    destruct (sorted_by_confidence l) as [| h tl] eqn:E.
    { assert (In d0 (sorted_by_confidence l)) as H
        by (apply sorted_In; now left).
      rewrite E in H. destruct H. }
    split.
    + cbn [overlap_loop is_overlapping existsb].
      destruct (overlap_loop_selects (3 # 10) tl ([] ++ [h]))
        as (out & -> & _).
      exists h, out. split; [reflexivity |].
      split; [apply sorted_In; rewrite E; now left |].
      exact (sorted_head_max l h tl E).
    + intros _.
      destruct (overlap_loop_selects (3 # 10) (h :: tl) [])
        as (out & -> & _ & _ & Hs).
      cbn [app]. apply Hs. rewrite <- E. apply sorted_by_confidence_sorted.
Qed.

Lemma best_detection_kept_witness :
  let d1 := {| bbox := (0, 0, 10, 10); defect_type := "Dead_Knot";
               size_mm := 3; confidence := 5 # 10 |} in
  let d2 := {| bbox := (1, 0, 11, 10); defect_type := "Sound_Knot";
               size_mm := 3; confidence := 9 # 10 |} in
  exists h rest,
    filter_overlapping_detections [d1; d2] (3 # 10) = h :: rest
    /\ In h [d1; d2]
    /\ forall d, In d [d1; d2] -> confidence d <= confidence h.
Proof.
  intros d1 d2. apply (best_detection_kept [d1; d2]). discriminate.
Defined.

End Kept.

(** ** More on the two rectangle tests and the ROI gate *)

Section RectangleAlgebra.

Import App Wood Geometry.

(** X19: both rectangle tests are symmetric in their two rectangles, and
    whenever the strict test reports a collision the non-strict test on the
    same two rectangles reports an intersection. *)
Theorem rectangle_tests_symmetric (x1 y1 w1 h1 x2 y2 w2 h2 : Q) :
  check_roi_collision x1 y1 w1 h1 x2 y2 w2 h2
  = check_roi_collision x2 y2 w2 h2 x1 y1 w1 h1
  /\ _check_bbox_intersection x1 y1 w1 h1 x2 y2 w2 h2
     = _check_bbox_intersection x2 y2 w2 h2 x1 y1 w1 h1
  /\ (check_roi_collision x1 y1 w1 h1 x2 y2 w2 h2 = true ->
      _check_bbox_intersection x1 y1 (x1 + w1) (y1 + h1)
        x2 y2 (x2 + w2) (y2 + h2) = true).
Proof.
  split; [| split].
  - apply eq_true_iff_eq. unfold check_roi_collision.
    rewrite !andb_true_iff, !Qltb_lt, !Qgtb_lt. tauto.
  - apply eq_true_iff_eq. unfold _check_bbox_intersection.
    rewrite !negb_true_iff, !orb_false_iff, !Qltb_ge. unfold Qgtb.
    rewrite !Qltb_ge. tauto.
  - unfold check_roi_collision, _check_bbox_intersection.
    rewrite !andb_true_iff, !Qltb_lt, !Qgtb_lt, negb_true_iff,
      !orb_false_iff, !Qltb_ge. unfold Qgtb. rewrite !Qltb_ge.
    intros [[[? ?] ?] ?]. repeat split; lra.
Qed.

Lemma rectangle_tests_symmetric_witness :
  _check_bbox_intersection 100 50 (100 + 200) (50 + 100)
    0 0 (0 + 400) (0 + 70) = true.
Proof.
  destruct (rectangle_tests_symmetric 100 50 200 100 0 0 400 70)
    as (_ & _ & H).
  apply H. reflexivity.
Defined.

(** X20: the ROI gate accepts, at any threshold up to 1, a detection box
    of positive width and height that lies inside the ROI; it rejects, at
    any threshold, a box that shares no area with the ROI; and a box
    accepted at one threshold is accepted at every lower one. *)
Theorem roi_gate_inside_outside (x1 y1 x2 y2 : Q) (roi : Q * Q * Q * Q)
  (t : Q) :
  (let '(rx, ry, rw, rh) := roi in
   rx <= x1 -> x1 < x2 -> x2 <= rx + rw ->
   ry <= y1 -> y1 < y2 -> y2 <= ry + rh -> t <= 1 ->
   bbox_inside_roi [x1; y1; x2; y2] (Some roi) t = true)
  /\ (intersection_area (x1, y1, x2, y2) (corners roi) == 0 ->
      bbox_inside_roi [x1; y1; x2; y2] (Some roi) t = false)
  /\ (forall t', t' <= t ->
        bbox_inside_roi [x1; y1; x2; y2] (Some roi) t = true ->
        bbox_inside_roi [x1; y1; x2; y2] (Some roi) t' = true).
Proof.
  destruct roi as [[[rx ry] rw] rh]. unfold bbox_inside_roi, corners.
  split; [| split].
  - intros Hx1 Hx Hx2 Hy1 Hy Hy2 Ht.
    assert (max x1 rx == x1) as Ea
      by (unfold max; destruct (Qgtb rx x1) eqn:E;
          [apply Qgtb_lt in E; lra | reflexivity]).
    assert (max y1 ry == y1) as Eb
      by (unfold max; destruct (Qgtb ry y1) eqn:E;
          [apply Qgtb_lt in E; lra | reflexivity]).
    assert (min x2 (rx + rw) == x2) as Ec
      by (unfold min; destruct (Qltb (rx + rw) x2) eqn:E;
          [apply Qltb_lt in E; lra | reflexivity]).
    assert (min y2 (ry + rh) == y2) as Ed
      by (unfold min; destruct (Qltb (ry + rh) y2) eqn:E;
          [apply Qltb_lt in E; lra | reflexivity]).
    rewrite (Qleb_proper _ _ _ _ Ec Ea), (Qleb_proper _ _ _ _ Ed Eb).
    assert (Qleb x2 x1 = false) as ->
      by (apply not_true_iff_false; rewrite Qleb_le; lra).
    assert (Qleb y2 y1 = false) as ->
      by (apply not_true_iff_false; rewrite Qleb_le; lra).
    cbn [orb]. assert (0 < (x2 - x1) * (y2 - y1)) as Ha by nra.
    assert (Qleb ((x2 - x1) * (y2 - y1)) 0 = false) as ->
      by (apply not_true_iff_false; rewrite Qleb_le; lra).
    apply Qgeb_le. rewrite Ea, Eb, Ec, Ed. apply Qle_shift_div_l;
      [exact Ha | nra].
  - intros Hz.
    destruct (Qleb (min x2 (rx + rw)) (max x1 rx)
              || Qleb (min y2 (ry + rh)) (max y1 ry)) eqn:E; [reflexivity |].
    exfalso. rewrite <- (intersection_area_code _ _ _ _ _ _ _ _ E) in Hz.
    apply orb_false_iff in E as [Ex Ey].
    apply not_true_iff_false in Ex, Ey. rewrite Qleb_le in Ex, Ey. nra.
  - intros t' Ht'.
    destruct (_ || _); [discriminate |].
    destruct (Qleb _ 0); [discriminate |].
    rewrite !Qgeb_le. lra.
Qed.

Lemma roi_gate_inside_outside_witness :
  bbox_inside_roi [10; 10; 20; 20] (Some (0, 0, 100, 100)) (7 # 10) = true
  /\ bbox_inside_roi [200; 10; 220; 20] (Some (0, 0, 100, 100)) (7 # 10)
     = false.
Proof.
  split.
  - destruct (roi_gate_inside_outside 10 10 20 20 (0, 0, 100, 100) (7 # 10))
      as (H & _).
    apply H; discriminate || reflexivity.
  - destruct (roi_gate_inside_outside 200 10 220 20 (0, 0, 100, 100)
                (7 # 10)) as (_ & H & _).
    apply H. reflexivity.
Defined.

End RectangleAlgebra.

(** ** The deduplication sweep *)

Section Deduplicate.

Import Dedup.

Variables (spatial_threshold_mm temporal_threshold_sec : Q).
Variable seconds : string -> Q.

#[local] Abbreviation sweep_clusters :=
  (sweep spatial_threshold_mm temporal_threshold_sec seconds).

(** The representative of a cluster: one of its members, and no member is
    larger. *)
#[local] Abbreviation represents :=
  (fun (cluster : list detection) (r : detection) =>
     In r cluster /\ forall d, In d cluster -> size_mm d <= size_mm r).

Lemma should_merge_total (d : detection) (cluster : list detection) :
  cluster <> [] ->
  exists b,
    _should_merge_with_cluster spatial_threshold_mm temporal_threshold_sec
      seconds d cluster = Ok b.
Proof.
  intros Hne. unfold _should_merge_with_cluster.
  destruct (last cluster) as [x |] eqn:E.
  - destruct (Qgtb _ temporal_threshold_sec); eexists; reflexivity.
  - apply last_None in E. contradiction.
Qed.

Lemma sweep_partitions (rest : list detection) :
  forall current, current <> [] ->
  exists clusters,
    sweep_clusters current rest = Ok clusters
    /\ List.concat clusters = current ++ rest
    /\ Forall (fun c => c <> []) clusters.
Proof.
  induction rest as [| d rest IH]; intros current Hne; cbn [sweep].
  - exists [current]. split; [reflexivity |].
    split; [cbn; now rewrite !app_nil_r | now constructor].
  - destruct (should_merge_total d current Hne) as [b ->]. rewrite bind_Ok.
    destruct b.
    + destruct (IH (current ++ [d])) as (cs & -> & Hc & Hall);
        [now destruct current |].
      exists cs. split; [reflexivity |].
      split; [now rewrite Hc, <- app_assoc | exact Hall].
    + destruct (IH [d]) as (cs & -> & Hc & Hall); [discriminate |].
      rewrite bind_Ok. exists (current :: cs). split; [reflexivity |].
      split; [cbn [List.concat]; now rewrite Hc | now constructor].
Qed.

Lemma max_by_size_spec (rest : list detection) :
  forall first,
    (max_by_size first rest = first \/ In (max_by_size first rest) rest)
    /\ size_mm first <= size_mm (max_by_size first rest)
    /\ forall d, In d rest -> size_mm d <= size_mm (max_by_size first rest).
Proof.
  unfold max_by_size.
  induction rest as [| x rest IH]; intros first; cbn [foldl].
  - split; [now left |]. split; [apply Qle_refl | intros d []].
  - destruct (Qgtb (size_mm x) (size_mm first)) eqn:E.
    + apply Qgtb_lt in E. destruct (IH x) as (Hin & Hge & Hall).
      split; [right; destruct Hin as [-> | Hin]; [now left | now right] |].
      split; [lra |]. intros d [<- | Hd]; [exact Hge | now apply Hall].
    + apply Qltb_ge in E. destruct (IH first) as (Hin & Hge & Hall).
      split; [destruct Hin as [-> | Hin]; [now left | right; now right] |].
      split; [exact Hge |]. intros d [<- | Hd]; [lra | now apply Hall].
Qed.

Lemma select_best_spec (cluster : list detection) :
  cluster <> [] ->
  exists r, _select_best_detection cluster = Ok r /\ represents cluster r.
Proof.
  destruct cluster as [| d [| e rest]]; [congruence | |]; intros _.
  - exists d. split; [reflexivity |]. split; [now left |].
    intros x [<- | []]. apply Qle_refl.
  - cbn [_select_best_detection].
    destruct (max_by_size_spec (e :: rest) d) as (Hin & Hge & Hall).
    eexists. split; [reflexivity |]. split.
    + destruct Hin as [-> | Hin]; [now left | now right].
    + intros x [<- | Hx]; [exact Hge | now apply Hall].
Qed.

Lemma select_all_spec (clusters : list (list detection)) :
  Forall (fun c => c <> []) clusters ->
  exists out, select_all clusters = Ok out /\ Forall2 represents clusters out.
Proof.
  induction 1 as [| c cs Hc _ IH]; cbn [select_all].
  - exists []. split; [reflexivity | constructor].
  - destruct (select_best_spec c Hc) as (r & -> & Hr).
    destruct IH as (out & -> & Hout). rewrite !bind_Ok.
    exists (r :: out). split; [reflexivity | now constructor].
Qed.

Lemma insert_by_timestamp_In (d x : detection) (l : list detection) :
  In x (insert_by_timestamp d l) <-> x = d \/ In x l.
Proof.
  induction l as [| e l IH]; cbn [insert_by_timestamp].
  - simpl. intuition.
  - destruct (String.leb (timestamp d) (timestamp e)); simpl in *; intuition.
Qed.

Lemma sorted_by_timestamp_In (x : detection) (l : list detection) :
  In x (sorted_by_timestamp l) <-> In x l.
Proof.
  unfold sorted_by_timestamp. induction l as [| d l IH]; [reflexivity |].
  cbn [foldr]. rewrite insert_by_timestamp_In, IH. simpl. intuition.
Qed.

Lemma insert_by_timestamp_length (d : detection) (l : list detection) :
  length (insert_by_timestamp d l) = S (length l).
Proof.
  induction l as [| e l IH]; cbn [insert_by_timestamp]; [reflexivity |].
  destruct (String.leb _ _); cbn [length]; [reflexivity | now rewrite IH].
Qed.

Lemma sorted_by_timestamp_length (l : list detection) :
  length (sorted_by_timestamp l) = length l.
Proof.
  unfold sorted_by_timestamp. induction l as [| d l IH]; [reflexivity |].
  cbn [foldr length]. now rewrite insert_by_timestamp_length, IH.
Qed.

Lemma concat_nonempty_length {A : Type} (ls : list (list A)) :
  Forall (fun c => c <> []) ls -> (length ls <= length (List.concat ls))%nat.
Proof.
  induction 1 as [| c cs Hc _ IH]; [reflexivity |].
  cbn [List.concat length]. rewrite length_app.
  destruct c; [congruence | cbn [length]; lia].
Qed.

Example ex_deduplicate :
  let d1 := {| timestamp := "2025-01-01T10:00:02"; defect_type := "Dead_Knot";
               size_mm := 12; bbox := None |} in
  let d2 := {| timestamp := "2025-01-01T10:00:01"; defect_type := "Dead_Knot";
               size_mm := 15; bbox := None |} in
  let d3 := {| timestamp := "2025-01-01T10:00:03"; defect_type := "Sound_Knot";
               size_mm := 40; bbox := None |} in
  deduplicate 5 10 (fun _ => 0) [d1; d2; d3] = Ok [d2; d3]
  /\ deduplicate 5 10 (fun _ => 0) [] = Ok [].
Proof. split; reflexivity. Qed.

(** X21: with timestamps that parse, deduplication never raises.  It cuts
    the detections, sorted by timestamp, into consecutive clusters that are
    not empty and returns one
    representative per cluster, in order: a member of the cluster that no
    member exceeds in size.  So every returned detection is one of the
    input, every input detection is matched by a returned one of at least
    its size, and the output is no longer than the input. *)
Theorem deduplicate_keeps_largest (detections : list detection) :
  exists clusters out,
    deduplicate spatial_threshold_mm temporal_threshold_sec seconds
      detections = Ok out
    /\ List.concat clusters = sorted_by_timestamp detections
    /\ Forall2 represents clusters out
    /\ (forall r, In r out -> In r detections)
    /\ (forall d, In d detections ->
          exists r, In r out /\ size_mm d <= size_mm r)
    /\ (length out <= length detections)%nat
    /\ (detections = [] <-> out = []).
Proof.
  unfold deduplicate. destruct detections as [| d0 ds].
  - exists [], []. repeat split; try reflexivity; try constructor;
      intros ? [].
  - set (dets := d0 :: ds).
    destruct (sorted_by_timestamp dets) as [| first rest] eqn:E.
    { assert (In d0 (sorted_by_timestamp dets)) as H
        by (apply sorted_by_timestamp_In; now left).
      rewrite E in H. destruct H. }
    destruct (sweep_partitions rest [first]) as (cs & -> & Hc & Hall);
      [discriminate |].
    rewrite bind_Ok. destruct (select_all_spec cs Hall) as (out & -> & Hrep).
    exists cs, out. split; [reflexivity |]. split; [exact Hc |].
    split; [exact Hrep |].
    assert (forall x, In x (List.concat cs) <-> In x dets) as Hmem.
    { intros x. rewrite Hc. change ([first] ++ rest) with (first :: rest).
      rewrite <- E. apply sorted_by_timestamp_In. }
    split; [| split; [| split]].
    + intros r Hr. apply Hmem, in_concat.
      apply list_elem_of_In, list_elem_of_lookup in Hr as [i Hi].
      destruct (Forall2_lookup_r _ _ _ _ _ Hrep Hi) as (c & Hci & Hin & _).
      exists c. split; [| exact Hin].
      apply list_elem_of_In, list_elem_of_lookup. now exists i.
    + intros d Hd. apply Hmem, in_concat in Hd as (c & Hc' & Hdc).
      apply list_elem_of_In, list_elem_of_lookup in Hc' as [i Hi].
      destruct (Forall2_lookup_l _ _ _ _ _ Hrep Hi) as (r & Hri & _ & Hmax).
      exists r. split; [| now apply Hmax].
      apply list_elem_of_In, list_elem_of_lookup. now exists i.
    + rewrite <- (Forall2_length _ _ _ Hrep).
      rewrite <- (sorted_by_timestamp_length dets), E.
      change (first :: rest) with ([first] ++ rest). rewrite <- Hc.
      now apply concat_nonempty_length.
    + split; [intros H; discriminate H |]. intros ->.
      inversion Hrep; subst. discriminate Hc.
Qed.

End Deduplicate.

(** ** Label normalisation *)

Section Labels.

Import App.

(** The normal form a label is looked up under. *)
#[local] Abbreviation normal_form model_label :=
  (replace_char underscore space (strip (lower model_label))).

Lemma replace_char_free (s : string) :
  ~ In underscore (String.list_ascii_of_string
                     (replace_char underscore space s)).
Proof.
  induction s as [| c s IH]; cbn [replace_char String.list_ascii_of_string];
    [intros [] |].
  intros [H | H]; [| exact (IH H)].
  destruct (Ascii.eqb c underscore) eqn:E; [discriminate H |].
  apply Ascii.eqb_neq in E. congruence.
Qed.

(** A key that contains an underscore is never the normal form of a
    label. *)
Lemma underscore_key_dead (s k : string) :
  In underscore (String.list_ascii_of_string k) ->
  String.eqb (replace_char underscore space s) k = false.
Proof.
  intros Hk. apply String.eqb_neq. intros E. rewrite <- E in Hk.
  exact (replace_char_free s Hk).
Qed.

Lemma lower_char_idem (c : Ascii.ascii) :
  lower_char (lower_char c) = lower_char c.
Proof. destruct c as [[] [] [] [] [] [] [] []]; reflexivity. Qed.

Lemma lower_idem (s : string) : lower (lower s) = lower s.
Proof.
  induction s as [| c s IH]; cbn [lower]; [reflexivity |].
  now rewrite lower_char_idem, IH.
Qed.

Example ex_labels :
  List.map map_model_output_to_standard
    ["dead knots"; " Live Knots "; "LIVE_KNOT"; "Knots_With_Crack";
     "missing knots"; "knot"; "Dead_Knot"; "dead_knot"; "crack_knot";
     "missing_knot"; "_live knot"; "scratch"]
  = ["Dead_Knot"; "Sound_Knot"; "Sound_Knot"; "Crack_Knot";
     "Missing_Knot"; "Unsound_Knot"; "Unsound_Knot"; "Unsound_Knot";
     "Unsound_Knot"; "Unsound_Knot"; "Unsound_Knot"; "Unsound_Knot"].
Proof. reflexivity. Qed.

Ltac has_underscore :=
  cbn; repeat first [left; reflexivity | right].

(** X22: the standard type of a label depends only on its normal form
    (lower case, surrounding white space stripped, then underscores turned
    into spaces) and is one of five names.  Only normal forms written with
    spaces are recognised: the keys of the table that contain an underscore
    never match, so for instance the singular ["dead knot"] is not
    recognised, and every label that is not recognised is an unsound
    knot.  The result does not depend on the case of the label. *)
Theorem label_mapping_recognised (model_label : string) :
  let n := normal_form model_label in
  let r := map_model_output_to_standard model_label in
  In r ["Dead_Knot"; "Crack_Knot"; "Sound_Knot"; "Missing_Knot";
        "Unsound_Knot"]
  /\ (r = "Dead_Knot" <-> n = "dead knots")
  /\ (r = "Sound_Knot" <-> In n ["live knots"; "sound knots"; "live knot"])
  /\ (r = "Crack_Knot" <-> In n ["knots with crack"; "knot with crack"])
  /\ (r = "Missing_Knot" <-> n = "missing knots")
  /\ map_model_output_to_standard (lower model_label) = r.
Proof.
  cbv zeta. unfold map_model_output_to_standard. rewrite lower_idem.
  set (s := strip (lower model_label)).
  let v := eval vm_compute in label_mapping in change label_mapping with v.
  cbn [dict_get].
  rewrite (underscore_key_dead s "dead_knots"),
    (underscore_key_dead s "knots_with_crack"),
    (underscore_key_dead s "live_knots"),
    (underscore_key_dead s "missing_knots"),
    (underscore_key_dead s "sound_knots"),
    (underscore_key_dead s "unsound_knots"),
    (underscore_key_dead s "live_knot"),
    (underscore_key_dead s "dead_knot"),
    (underscore_key_dead s "missing_knot"),
    (underscore_key_dead s "crack_knot") by has_underscore.
  repeat match goal with
    | |- context [String.eqb (replace_char underscore space s) ?k] =>
        let E := fresh "E" in
        destruct (String.eqb (replace_char underscore space s) k) eqn:E;
        [apply String.eqb_eq in E; rewrite E; cbn;
         intuition (discriminate || auto) |]
    end.
  repeat match goal with
    | H : String.eqb _ _ = false |- _ => apply String.eqb_neq in H
    end.
  cbn. intuition (try discriminate; auto; exfalso; auto using eq_sym).
Qed.

End Labels.

(** ** The alignment counter *)

Section Alignment.

Import App.

Variable frame_shape : Z * Z.

Lemma misalignment_loop_iff (fx fy : Z) (centers : list (Q * Q)) :
  misalignment_loop fx fy centers = false
  <-> forall c, In c centers ->
        Qabs (c.1 - inject_Z fx) <= 50 /\ Qabs (c.2 - inject_Z fy) <= 50.
Proof.
  induction centers as [| [cx cy] rest IH]; cbn [misalignment_loop].
  - split; [intros _ c [] | reflexivity].
  - destruct (Qgtb (abs (cx - inject_Z fx)) ALIGNMENT_TOLERANCE
              || Qgtb (abs (cy - inject_Z fy)) ALIGNMENT_TOLERANCE) eqn:E.
    + split; [discriminate |]. intros H.
      destruct (H (cx, cy) (or_introl eq_refl)) as [Hx Hy].
      exfalso. apply orb_true_iff in E.
      destruct E as [E | E]; apply Qgtb_lt in E;
        [exact (Qlt_not_le _ _ E Hx) | exact (Qlt_not_le _ _ E Hy)].
    + apply orb_false_iff in E. destruct E as [Ex Ey].
      apply Qltb_ge in Ex, Ey. unfold abs, ALIGNMENT_TOLERANCE in Ex, Ey.
      rewrite IH. split.
      * intros H c [<- | Hc]; [split; assumption | now apply H].
      * intros H c Hc. apply H. now right.
Qed.

(** One call: with no detection the counter is kept; when every detection
    is centred it is reset; otherwise it is advanced by one. *)
Lemma plank_alignment_cases (n : Z) (detections : list detection) :
  detections <> [] ->
  (check_plank_alignment n detections frame_shape = 0%Z
   /\ forall d, In d detections -> centred frame_shape d)
  \/ (check_plank_alignment n detections frame_shape = (n + 1)%Z
      /\ ~ forall d, In d detections -> centred frame_shape d).
Proof.
  intros Hne. destruct frame_shape as [frame_height frame_width] eqn:Es.
  assert (check_plank_alignment n detections (frame_height, frame_width)
          = if misalignment_loop (frame_width / 2) (frame_height / 2)
                 (List.map (fun d => let '(x1, y1, x2, y2) := bbox d in
                                     ((x1 + x2) / 2, (y1 + y2) / 2))
                    detections)
            then (n + 1)%Z else 0%Z) as ->.
  { destruct detections; [contradiction | reflexivity]. }
  assert (forall d, centred (frame_height, frame_width) d
          <-> (let c := (let '(x1, y1, x2, y2) := bbox d in
                         ((x1 + x2) / 2, (y1 + y2) / 2)) in
               Qabs (c.1 - inject_Z (frame_width / 2)) <= 50
               /\ Qabs (c.2 - inject_Z (frame_height / 2)) <= 50)) as Hc.
  { intros d. unfold centred. destruct (bbox d) as [[[x1 y1] x2] y2].
    reflexivity. }
  destruct (misalignment_loop _ _ _) eqn:E.
  - right. split; [reflexivity |]. intros H.
    apply not_true_iff_false in E; [exact E |].
    exfalso. apply not_false_iff_true in E. apply E.
    apply misalignment_loop_iff. intros c Hin.
    apply List.in_map_iff in Hin. destruct Hin as (d & <- & Hd).
    now apply Hc, H.
  - left. split; [reflexivity |]. intros d Hd. apply Hc.
    rewrite misalignment_loop_iff in E. apply E.
    apply List.in_map_iff. now exists d.
Qed.

Lemma after_frames_app (n : Z) (xs ys : list (list detection)) :
  after_frames frame_shape n (xs ++ ys)
  = after_frames frame_shape (after_frames frame_shape n xs) ys.
Proof. unfold after_frames. apply foldl_app. Qed.

(** While no frame with detections is aligned, the counter counts the
    frames with detections. *)
Lemma misaligned_run (frames : list (list detection)) (n : Z) :
  (forall detections, In detections frames ->
     detections = []
     \/ exists d, In d detections /\ ~ centred frame_shape d) ->
  after_frames frame_shape n frames
  = (n + Z.of_nat (length (with_detections frames)))%Z.
Proof.
  revert n. induction frames as [| ds frames IH]; intros n H.
  - cbn. lia.
  - change (after_frames frame_shape n (ds :: frames))
      with (after_frames frame_shape
              (check_plank_alignment n ds frame_shape) frames).
    rewrite IH by (intros ds' Hds'; apply H; now right).
    destruct (H ds (or_introl eq_refl)) as [-> | (d & Hd & Hoff)].
    + reflexivity.
    + assert (ds <> []) as Hne by (intros ->; destruct Hd).
      destruct (plank_alignment_cases n ds Hne) as [[_ Hall] | [-> _]].
      * exfalso. now apply Hoff, Hall.
      * unfold with_detections. destruct ds; [contradiction |].
        cbn [List.filter length]. fold (with_detections frames). lia.
Qed.

Example ex_alignment :
  let det x1 x2 :=
    {| bbox := (x1, 200, x2, 280); defect_type := "Sound_Knot";
       size_mm := 10; confidence := 9 # 10 |} in
  after_frames (480, 640)%Z 0 [[det 100 140]; []; [det 300 340; det 20 60]]
  = 2%Z
  /\ after_frames (480, 640)%Z 0
       [[det 100 140]; [det 300 340]; [det 20 60]; []] = 1%Z.
Proof. split; reflexivity. Qed.

End Alignment.

(** X23: the alignment counter holds the number of frames with detections
    since the last frame whose detections were all centred: such a frame
    resets it whatever it was, a frame without detections leaves it alone,
    and a frame with a detection off centre advances it by one. *)
Theorem alignment_failures_streak (frame_shape : Z * Z) (n0 : Z)
  (pre post : list (list App.detection)) (a : list App.detection) :
  a <> [] ->
  (forall d, In d a -> App.centred frame_shape d) ->
  (forall detections, In detections post ->
     detections = []
     \/ exists d, In d detections /\ ~ App.centred frame_shape d) ->
  App.after_frames frame_shape n0 (pre ++ a :: post)
  = Z.of_nat (length (App.with_detections post)).
Proof.
  intros Hne Ha Hpost.
  rewrite after_frames_app.
  change (App.after_frames frame_shape
            (App.after_frames frame_shape n0 pre) (a :: post))
    with (App.after_frames frame_shape
            (App.check_plank_alignment
               (App.after_frames frame_shape n0 pre) a frame_shape) post).
  destruct (plank_alignment_cases frame_shape
              (App.after_frames frame_shape n0 pre) a Hne)
    as [[-> _] | [_ Hoff]]; [| contradiction].
  now rewrite misaligned_run.
Qed.

Lemma alignment_failures_streak_witness :
  let det x1 x2 :=
    {| App.bbox := (x1, 200, x2, 280); App.defect_type := "Sound_Knot";
       App.size_mm := 10; App.confidence := 9 # 10 |} in
  App.after_frames (480, 640)%Z 7
    ([[det 20 60]] ++ [det 300 340] :: [[det 100 140]; []; [det 500 560]])
  = 2%Z.
Proof.
  intros det.
  apply (alignment_failures_streak (480, 640)%Z 7 [[det 20 60]]
           [[det 100 140]; []; [det 500 560]] [det 300 340]).
  - discriminate.
  - intros d [<- | []]. split; vm_compute; discriminate.
  - intros ds [<- | [<- | [<- | []]]].
    + right. exists (det 100 140). split; [now left |].
      intros [H _]. vm_compute in H. now apply H.
    + now left.
    + right. exists (det 500 560). split; [now left |].
      intros [H _]. vm_compute in H. now apply H.
Defined.

(** ** The automatic region of interest *)

Section AutoRoi.

Import Wood.

(** The padding: a tenth of the side, rounded down. *)
Lemma padding_tenth (w : Z) :
  (0 <= w)%Z -> int (inject_Z w * (1 # 10)) = (w / 10)%Z.
Proof.
  intros Hw. unfold int.
  assert (Qltb (inject_Z w * (1 # 10)) 0 = false) as ->.
  { apply Qltb_ge. apply Qmult_le_0_compat; [| lra].
    change 0 with (inject_Z 0). rewrite <- Zle_Qle. exact Hw. }
  unfold Qfloor, Qmult, inject_Z. cbn [Qnum Qden].
  now rewrite Z.mul_1_r.
Qed.

Example ex_auto_roi :
  generate_auto_roi [(100, 50, 405, 300); (0, 0, 10, 10)]%Z (480, 640)%Z
  = Some (60, 20, 485, 360)%Z
  /\ generate_auto_roi [(10, 5, 620, 470)]%Z (480, 640)%Z
     = Some (0, 0, 640, 480)%Z
  /\ generate_auto_roi [] (480, 640)%Z = None.
Proof. repeat split; reflexivity. Qed.

End AutoRoi.

(** X24: the automatic region of interest exists exactly when there is a
    wood candidate; for a first candidate that lies inside the image it
    lies inside the image too, contains the candidate's box, and exceeds it
    on each axis by at most two tenths of the box's side. *)
Theorem auto_roi_contains_wood (x y w h : Z)
  (rest : list (Z * Z * Z * Z)) (image_height image_width : Z) :
  (0 <= x)%Z -> (0 <= y)%Z -> (0 <= w)%Z -> (0 <= h)%Z ->
  (x + w <= image_width)%Z -> (y + h <= image_height)%Z ->
  (forall cs shape, Wood.generate_auto_roi cs shape = None <-> cs = [])
  /\ exists rx ry rw rh,
       Wood.generate_auto_roi ((x, y, w, h) :: rest)
         (image_height, image_width) = Some (rx, ry, rw, rh)
       /\ (0 <= rx <= x)%Z /\ (0 <= ry <= y)%Z
       /\ (x + w <= rx + rw <= image_width)%Z
       /\ (y + h <= ry + rh <= image_height)%Z
       /\ (w <= rw <= w + 2 * (w / 10))%Z
       /\ (h <= rh <= h + 2 * (h / 10))%Z.
Proof.
  intros Hx Hy Hw Hh HW HH. split.
  - intros [| [[[cx cy] cw] ch] cs] shape; cbn [Wood.generate_auto_roi];
      split; (reflexivity || discriminate).
  - cbn [Wood.generate_auto_roi fst snd].
    rewrite !padding_tenth by assumption.
    do 4 eexists. split; [reflexivity |].
    pose proof (Z.div_pos w 10 Hw ltac:(lia)).
    pose proof (Z.div_pos h 10 Hh ltac:(lia)).
    lia.
Qed.

Lemma auto_roi_contains_wood_witness :
  exists rx ry rw rh,
    Wood.generate_auto_roi [(100, 50, 405, 300)]%Z (480, 640)%Z
    = Some (rx, ry, rw, rh)
    /\ (0 <= rx <= 100)%Z /\ (0 <= ry <= 50)%Z
    /\ (100 + 405 <= rx + rw <= 640)%Z
    /\ (50 + 300 <= ry + rh <= 480)%Z
    /\ (405 <= rw <= 405 + 2 * (405 / 10))%Z
    /\ (300 <= rh <= 300 + 2 * (300 / 10))%Z.
Proof.
  apply (auto_roi_contains_wood 100 50 405 300 [] 480 640); lia.
Defined.

(** ** The confidence of a wood candidate *)

Section WoodConfidence.

Import Wood.

Example ex_wood_confidence :
  _calculate_wood_confidence 50000 3 (9 # 10) 4 == 1
  /\ _calculate_wood_confidence 6000 7 (6 # 10) 5 == 6 # 10
  /\ _calculate_wood_confidence 200000 (3 # 2) (8 # 10) 9 == 6 # 10
  /\ _calculate_wood_confidence 100 10 (1 # 10) 3 == 0.
Proof. repeat split; vm_compute; reflexivity. Qed.

End WoodConfidence.

(** X25: the confidence of a wood candidate lies between 0 and 1; it is 1
    exactly when all four criteria are met in full (area in
    [10000, 100000], aspect ratio in [2, 6], solidity above 0.7, four
    vertices), and 0 exactly when all four are missed. *)
Theorem wood_confidence_range (area aspect_ratio solidity : Q)
  (vertices : Z) :
  let c := Wood._calculate_wood_confidence area aspect_ratio solidity
             vertices in
  0 <= c <= 1
  /\ (c == 1 <->
      (10000 <= area <= 100000) /\ (2 <= aspect_ratio <= 6)
      /\ 7 # 10 < solidity /\ vertices = 4%Z)
  /\ (c == 0 <->
      area <= 5000 /\ (aspect_ratio < 3 # 2 \/ 8 < aspect_ratio)
      /\ solidity <= 1 # 2 /\ (vertices < 4 \/ 6 < vertices)%Z).
Proof.
  cbv zeta. unfold Wood._calculate_wood_confidence.
  destruct (Qleb 10000 area && Qleb area 100000) eqn:Ea1;
    [| destruct (Qgtb area 5000) eqn:Ea2];
  (destruct (Qleb 2 aspect_ratio && Qleb aspect_ratio 6) eqn:Er1;
    [| destruct (Qleb (15 # 10) aspect_ratio && Qleb aspect_ratio 8)
         eqn:Er2]);
  (destruct (Qgtb solidity (7 # 10)) eqn:Es1;
    [| destruct (Qgtb solidity (5 # 10)) eqn:Es2]);
  (destruct (vertices =? 4)%Z eqn:Ev1;
    [| destruct ((4 <=? vertices) && (vertices <=? 6))%Z eqn:Ev2]);
  match goal with
  | |- context [min ?q 1] =>
      let v := eval vm_compute in (min q 1) in change (min q 1) with v
  end;
  repeat match goal with
    | H : (_ && _) = true |- _ => apply andb_true_iff in H; destruct H
    | H : (_ && _) = false |- _ => apply andb_false_iff in H; destruct H
    | H : Qleb _ _ = true |- _ => apply Qleb_le in H
    | H : Qleb _ _ = false |- _ =>
        apply not_true_iff_false in H; rewrite Qleb_le in H
    | H : Qgtb _ _ = true |- _ => apply Qgtb_lt in H
    | H : Qgtb _ _ = false |- _ => apply Qltb_ge in H
    | H : (_ =? _)%Z = true |- _ => apply Z.eqb_eq in H
    | H : (_ =? _)%Z = false |- _ => apply Z.eqb_neq in H
    | H : (_ <=? _)%Z = true |- _ => apply Z.leb_le in H
    | H : (_ <=? _)%Z = false |- _ => apply Z.leb_gt in H
    end;
  (split; [split; vm_compute; discriminate |]);
  split;
    (split;
     [intros Hc;
      first [vm_compute in Hc; discriminate Hc
            | repeat split; try assumption;
              first [lra | lia | left; lra | right; lra
                    | left; lia | right; lia]]
     | intros (Harea & Haspect & Hsolidity & Hvertices);
       first [reflexivity | exfalso; lra | exfalso; lia
             | exfalso; destruct Haspect; lra]]).
Qed.

(** ** The width recorded for each camera *)

Section WidthStore.

Import Wood.

Lemma calculate_width_cases (st : state) (px : Q) (camera : string) (d : Q) :
  calculate_width_mm st px camera = Ok d ->
  (camera = "top" /\ ~ pixel_per_mm_top st == 0
   /\ d = px / pixel_per_mm_top st)
  \/ (camera = "bottom" /\ camera <> "top" /\ ~ pixel_per_mm_bottom st == 0
      /\ d = px / pixel_per_mm_bottom st).
Proof.
  unfold calculate_width_mm, truediv.
  destruct (String.eqb camera "top") eqn:Et.
  - apply String.eqb_eq in Et.
    destruct (Qeqb (pixel_per_mm_top st) 0) eqn:Ez; [discriminate |].
    intros [= <-]. left. split; [exact Et |]. split; [| reflexivity].
    rewrite <- Qeqb_eq, Ez. discriminate.
  - apply String.eqb_neq in Et.
    destruct (String.eqb camera "bottom") eqn:Eb; [| discriminate].
    apply String.eqb_eq in Eb.
    destruct (Qeqb (pixel_per_mm_bottom st) 0) eqn:Ez; [discriminate |].
    intros [= <-]. right. split; [exact Eb |]. split; [exact Et |].
    split; [| reflexivity]. rewrite <- Qeqb_eq, Ez. discriminate.
Qed.

End WidthStore.

(** X26: a width update that succeeds on a candidate comes from one of the
    two cameras; the returned width times that camera's pixels per mm is
    the height of the first candidate's box; the width is recorded under
    that camera and the other camera's record is left as it was; the
    calibration is not touched; a top-camera update leaves the global width
    alone, and after a bottom-camera update grading uses the returned width
    when it is positive and the fallback otherwise. *)
Theorem width_recorded_per_camera (st st' : Wood.state) (camera : string)
  (cand : Wood.candidate) (rest : list Wood.candidate) (d : Q) :
  Wood.update_wood_width_dynamic st camera (cand :: rest) = Ok (st', d) ->
  (camera = "top" \/ camera = "bottom")
  /\ d * (if String.eqb camera "top" then Wood.pixel_per_mm_top st
          else Wood.pixel_per_mm_bottom st) == (Wood.cand_bbox cand).2
  /\ Wood.detected_wood_width_mm st' !! camera = Some d
  /\ (forall other, other <> camera ->
        Wood.detected_wood_width_mm st' !! other
        = Wood.detected_wood_width_mm st !! other)
  /\ Wood.pixel_per_mm_top st' = Wood.pixel_per_mm_top st
  /\ Wood.pixel_per_mm_bottom st' = Wood.pixel_per_mm_bottom st
  /\ (camera = "top" ->
      Wood.WOOD_PALLET_WIDTH_MM st' = Wood.WOOD_PALLET_WIDTH_MM st)
  /\ (camera = "bottom" ->
      forall fallback_mm,
        Wood.get_wood_width_for_grading st' fallback_mm
        = if Qgtb d 0 then d else fallback_mm).
Proof.
  unfold Wood.update_wood_width_dynamic.
  destruct (Wood.cand_bbox cand) as [[[x y] w] h]. cbn [snd].
  destruct (Wood.calculate_width_mm st h camera) as [d' | e] eqn:Ec;
    [| discriminate].
  rewrite bind_Ok.
  apply calculate_width_cases in Ec.
  destruct Ec as [(-> & Hppm & ->) | (-> & Hne & Hppm & ->)].
  - change (("top" =? "bottom")%string) with false. cbn iota.
    intros [= <- <-]. change (("top" =? "top")%string) with true. cbn iota.
    cbn [Wood.set_detected Wood.detected_wood_width_mm Wood.pixel_per_mm_top
         Wood.pixel_per_mm_bottom Wood.WOOD_PALLET_WIDTH_MM].
    split; [now left |]. split; [field; exact Hppm |].
    split; [apply lookup_insert_eq |].
    split; [intros other Ho; now apply lookup_insert_ne |].
    repeat split; discriminate.
  - change (("bottom" =? "bottom")%string) with true. cbn iota.
    rewrite validate_after_assignment, bind_Ok.
    intros [= <- <-]. change (("bottom" =? "top")%string) with false.
    cbn iota. unfold Wood.get_wood_width_for_grading.
    cbn [Wood.set_detected Wood.set_width Wood.detected_wood_width_mm
         Wood.pixel_per_mm_top Wood.pixel_per_mm_bottom
         Wood.WOOD_PALLET_WIDTH_MM].
    split; [now right |]. split; [field; exact Hppm |].
    split; [apply lookup_insert_eq |].
    split; [intros other Ho; now apply lookup_insert_ne |].
    repeat split; (discriminate || reflexivity).
Qed.

Lemma width_recorded_per_camera_witness :
  let c := ("bottom", [ {| Wood.cand_bbox := (0, 0, 600, 350) |} ]) in
  Wood.detected_wood_width_mm (Wood.after_call Wood.initial c) !! "bottom"
  = Some (350 / (35 # 10))
  /\ Wood.detected_wood_width_mm (Wood.after_call Wood.initial c) !! "top"
     = Some 0
  /\ Wood.get_wood_width_for_grading (Wood.after_call Wood.initial c) 100
     = 350 / (35 # 10).
Proof.
  intros c.
  destruct (width_recorded_per_camera Wood.initial
              (Wood.after_call Wood.initial c) "bottom"
              {| Wood.cand_bbox := (0, 0, 600, 350) |} []
              (350 / (35 # 10)) eq_refl)
    as (_ & _ & Hrec & Hother & _ & _ & _ & Hgrade).
  split; [exact Hrec |]. split.
  - rewrite (Hother "top") by discriminate. reflexivity.
  - exact (Hgrade eq_refl 100).
Defined.
